(** * levelup-web3: the layout constants and the wallet dropdown

    A shallow embedding of [src/constants/layout.ts] and of
    [src/components/WalletToolkit/WalletDropdown.tsx].

    - [Layout] holds the exported layout strings, built by the same
      template-literal concatenations as the source.
    - [Wallet] embeds the [WalletDropdown] component: its style sheet
      ([useStyles]), its two pieces of local state, its handlers as
      computations in a small state monad over the world the handlers can
      touch, its render function, and the dispatch of user events to the
      handlers attached to the rendered elements.

    The code listings of the two articles are embedded as well: the
    notebook cell and the [Tipper] contract of the ZKML article ([Colab],
    [Tipper]) and the reader contracts of the L1SLOAD article
    ([L1Sload]), over a small model of Solidity's checked arithmetic,
    byte arrays and failures ([Solidity]). *)

From Stdlib Require Import String List ZArith Bool Lia.
Import ListNotations.
Local Open Scope string_scope.

(* ===================================================================== *)
(** ** src/constants/layout.ts *)
(* ===================================================================== *)

Module Layout.

Definition LAYOUT_HEADER_HEIGHT : string := "75px".
Definition MOBILE_LAYOUT_HEADER_HEIGHT : string := "64px".

Definition LAYOUT_FOOTER_HEIGHT : string := "143px".
Definition MOBILE_LAYOUT_FOOTER_HEIGHT : string := "132.5px".

(** [`calc(100vh - ${LAYOUT_HEADER_HEIGHT} - ${LAYOUT_FOOTER_HEIGHT})`] *)
Definition FULL_SCREEN_HEIGHT : string :=
  "calc(100vh - " ++ LAYOUT_HEADER_HEIGHT ++ " - " ++ LAYOUT_FOOTER_HEIGHT ++ ")".

Definition MOBILE_FULL_SCREEN_HEIGHT : string :=
  "calc(100vh - " ++ MOBILE_LAYOUT_HEADER_HEIGHT ++ " - "
                  ++ MOBILE_LAYOUT_FOOTER_HEIGHT ++ ")".

Definition PAGE_MIN_HEIGHT : list string :=
  [ MOBILE_FULL_SCREEN_HEIGHT;
    MOBILE_FULL_SCREEN_HEIGHT ].

End Layout.

(* ===================================================================== *)
(** ** src/components/WalletToolkit/WalletDropdown.tsx *)
(* ===================================================================== *)

Module Wallet.

(** *** Style sheet ([makeStyles], lines 26-87) *)

(** A CSS-in-JS value is a string or a bare number ([fontWeight: 500],
    [padding: 0]); a rule is the object literal of one class. *)
Inductive CssValue : Type :=
| CssStr (s : string)
| CssNum (n : Z).

Definition CssRule : Type := list (string * CssValue).

(** The three theme variables the style sheet reads:
    [theme.vars.palette.primary.contrastText],
    [theme.vars.palette.themeBackground.normal] and
    [theme.vars.palette.text.primary]. *)
Record Theme : Type := mkTheme {
  palette_primary_contrastText : string;
  palette_themeBackground_normal : string;
  palette_text_primary : string
}.

Record Classes : Type := mkClasses {
  button : CssRule;
  connectButton : CssRule;
  endIcon : CssRule;
  reverseEndIcon : CssRule;
  paper : CssRule;
  list_ : CssRule;
  listItem : CssRule;
  listItemIcon : CssRule;
  listItemText : CssRule
}.

Definition useStyles (theme : Theme) (dark : bool) : Classes :=
  let contrastText := palette_primary_contrastText theme in
  {| button :=
       [ ("fontSize", CssStr "1.6rem");
         ("height", CssStr "3.6rem");
         ("padding", CssStr "0 1.2rem");
         ("borderRadius", CssStr "0.5rem");
         ("border", CssStr (if dark then "1px solid " ++ contrastText else "none"));
         ("backgroundColor",
            CssStr (if dark then "unset" else palette_themeBackground_normal theme));
         ("color", CssStr (if dark then contrastText else "#473835"));
         ("whiteSpace", CssStr "nowrap") ];
     connectButton :=
       [ ("backgroundColor", CssStr "#FF684B");
         ("color", CssStr contrastText);
         ("border", CssStr "none");
         ("fontSize", CssStr "1.8rem");
         ("fontWeight", CssNum 500) ];
     endIcon :=
       [ ("fontSize", CssStr "1.6rem");
         ("marginLeft", CssStr "0.8rem");
         ("color", CssStr (if dark then contrastText else "#473835"));
         ("willChange", CssStr "transform");
         ("transition", CssStr "transform .3s ease-in-out") ];
     reverseEndIcon :=
       [ ("transform", CssStr "rotate(180deg)") ];
     paper :=
       [ ("borderRadius", CssStr "0.5rem");
         ("border", CssStr (if dark then "1px solid " ++ contrastText else "none"));
         ("backgroundColor",
            CssStr (if dark then palette_text_primary theme
                    else palette_themeBackground_normal theme));
         ("marginTop", CssStr "0.5rem") ];
     list_ :=
       [ ("padding", CssNum 0) ];
     listItem :=
       [ ("height", CssStr "4rem");
         ("padding", CssStr "0 1.2rem");
         ("gap", CssStr "0.8rem") ];
     listItemIcon :=
       [ ("minWidth", CssStr "unset !important");
         ("color", CssStr (if dark then contrastText else "#473835")) ];
     listItemText :=
       [ ("fontSize", CssStr "1.6rem");
         ("cursor", CssStr "pointer");
         ("color", CssStr (if dark then contrastText else "#473835")) ] |}.

(** [cx(a, b, ...)] keeps its truthy arguments; [open && cls] is [cls] when
    [open] holds and the falsy [false] otherwise. *)
Definition cx (args : list (option CssRule)) : list CssRule :=
  flat_map (fun a => match a with Some c => [c] | None => [] end) args.

Definition and_class (cond : bool) (c : CssRule) : option CssRule :=
  if cond then Some c else None.

(** *** Props, icons, the wallet context *)

(** [const { sx, dark } = props]: a style override object that may be
    absent, and a flag read only for its truthiness. *)
Record Props : Type := mkProps {
  sx : option CssRule;
  dark : bool
}.

Inductive Svg : Type :=
| CopySuccessSvg
| BlockSvg
| CopySvg
| DisconnectSvg
| DownTriangleSvg.

(** The values [useRainbowContext()] hands to the component.  The address
    and the chain id may be [undefined] ([None]); [connect] and
    [disconnect] are the collaborator's functions, embedded below as
    primitives of the handler monad. *)
Record RainbowContext : Type := mkRainbow {
  walletCurrentAddress : option string;
  chainId : option Z
}.

(** JavaScript truthiness of a [number | undefined]. *)
Definition truthy (n : option Z) : bool :=
  match n with
  | Some z => negb (Z.eqb z 0)
  | None => false
  end.

(** [chainId === c] for a [number | undefined] against a number. *)
Definition strict_eq (n : option Z) (c : Z) : bool :=
  match n with
  | Some z => Z.eqb z c
  | None => false
  end.

(** [Boolean(anchorEl)] for a [null | HTMLElement]: an object is truthy. *)
Definition Boolean {A : Type} (x : option A) : bool :=
  match x with
  | Some _ => true
  | None => false
  end.

(** *** The world of a handler *)

(** The calls that leave the component. *)
Inductive ExtCall : Type :=
| CallWindowOpen (url : string)
| CallCopy (text : option string)
| CallConnect
| CallDisconnect.

(** What the collaborators do when called: how the wallet provider changes
    the session on [connect()] and [disconnect()] (the identity when the
    call fails or is still pending), whether [copy] reports success, and
    whether [window.open] returned a window rather than [null].  A
    collaborator reports failure through what it returns or does; none is
    taken to throw into the component. *)
Record External : Type := mkExternal {
  ext_connect : RainbowContext -> RainbowContext;
  ext_disconnect : RainbowContext -> RainbowContext;
  ext_copy : option string -> bool;
  ext_window_open : string -> bool
}.

Section Component.

(** A DOM node, known only by its identity. *)
Variable HTMLElement : Type.

(** The theme supplied by the style provider. *)
Variable theme : Theme.

(** Imports from [@/constants] and [@/utils], which are not part of the
    sources at hand: [CHAIN_ID.L1], the [EXPLORER_URL] table indexed by
    ["L1"] and ["L2"], and the two string helpers. *)
Variable CHAIN_ID_L1 : Z.
Variable EXPLORER_URL : string -> string.
Variable generateExploreLink : string -> option string -> string -> string.
Variable truncateAddress : option string -> string.

(** Everything a handler can read or change: the two [useState] cells of
    the component, the session owned by the wallet provider, and the log
    of the calls that left the component. *)
Record World : Type := mkWorld {
  anchorEl : option HTMLElement;
  copied : bool;
  rainbow : RainbowContext;
  calls : list ExtCall
}.

(** [useState(null)], [useState(false)] on mount. *)
Definition initial (r : RainbowContext) : World :=
  {| anchorEl := None; copied := false; rainbow := r; calls := [] |}.

(** A handler is a computation over the world, given the behaviour of the
    collaborators; it returns a value and never an error. *)
Definition M (A : Type) : Type := External -> World -> A * World.

Definition ret {A : Type} (a : A) : M A := fun _ w => (a, w).

Definition bind {A B : Type} (m : M A) (k : A -> M B) : M B :=
  fun X w => let (a, w') := m X w in k a X w'.

Definition exec {A : Type} (m : M A) (X : External) (w : World) : World :=
  snd (m X w).

Definition setAnchorEl (v : option HTMLElement) : M unit :=
  fun _ w => (tt, {| anchorEl := v; copied := copied w;
                     rainbow := rainbow w; calls := calls w |}).

Definition setCopied (v : bool) : M unit :=
  fun _ w => (tt, {| anchorEl := anchorEl w; copied := v;
                     rainbow := rainbow w; calls := calls w |}).

Definition log (c : ExtCall) (w : World) : World :=
  {| anchorEl := anchorEl w; copied := copied w;
     rainbow := rainbow w; calls := calls w ++ [c] |}.

(** [window.open(url)]: the result says whether a window was opened. *)
Definition window_open (url : string) : M bool :=
  fun X w => (ext_window_open X url, log (CallWindowOpen url) w).

(** [copy(text)] of copy-to-clipboard: the result is its success flag. *)
Definition copy (text : option string) : M bool :=
  fun X w => (ext_copy X text, log (CallCopy text) w).

(** [connect()] and [disconnect()] of the wallet context: the provider,
    not the component, rewrites the session. *)
Definition connect : M unit :=
  fun X w => (tt, {| anchorEl := anchorEl w; copied := copied w;
                     rainbow := ext_connect X (rainbow w);
                     calls := calls w ++ [CallConnect] |}).

Definition disconnect : M unit :=
  fun X w => (tt, {| anchorEl := anchorEl w; copied := copied w;
                     rainbow := ext_disconnect X (rainbow w);
                     calls := calls w ++ [CallDisconnect] |}).

Notation "x <- m ;; k" := (bind m (fun x => k))
  (at level 61, m at next level, right associativity).
Notation "m ;; k" := (bind m (fun _ => k))
  (at level 61, right associativity).

(** *** Handlers (lines 102-124) *)

(** [const handleClick = (e) => { setAnchorEl(e.currentTarget); }]:
    while a click handler of the trigger runs, [currentTarget] is the
    trigger element. *)
Definition handleClick (currentTarget : HTMLElement) : M unit :=
  setAnchorEl (Some currentTarget).

Definition handleClose : M unit :=
  setAnchorEl None ;;
  setCopied false.

(** The key picked by [chainId === CHAIN_ID.L1 ? "L1" : "L2"]. *)
Definition explorer_key (chainId : option Z) : string :=
  if strict_eq chainId CHAIN_ID_L1 then "L1" else "L2".

(** [viewScan] closes over [walletCurrentAddress] and [chainId], its
    [useCallback] dependencies; the value of [window.open] is dropped. *)
Definition viewScan (walletCurrentAddress : option string)
                    (chainId : option Z) : M unit :=
  _ <- window_open
         (generateExploreLink
            (EXPLORER_URL (explorer_key chainId))
            walletCurrentAddress
            "address") ;;
  ret tt.

(** [copyAddress] closes over [walletCurrentAddress]; the flag returned by
    [copy] is dropped. *)
Definition copyAddress (walletCurrentAddress : option string) : M unit :=
  _ <- copy walletCurrentAddress ;;
  setCopied true.

(** *** The menu entries (lines 126-148) *)

Record Operation : Type := mkOperation {
  icon : Svg;
  label : string;
  action : M unit
}.

(** Every memoised value of the component ([open], [viewScan],
    [copyAddress], [operations]) reads only what its dependency list
    names, apart from [handleClose], which reads nothing; so the memoised
    value is the recomputed one and the embedding recomputes. *)
Definition operations (walletCurrentAddress : option string)
                      (chainId : option Z) (copied : bool) : list Operation :=
  [ {| icon := BlockSvg;
       label := "Block explorer";
       action := viewScan walletCurrentAddress chainId |};
    {| icon := if copied then CopySuccessSvg else CopySvg;
       label := "Copy address";
       action := copyAddress walletCurrentAddress |};
    {| icon := DisconnectSvg;
       label := "Disconnect";
       action := disconnect ;; handleClose |} ].

(** *** The rendered tree (lines 150-206) *)

Record SvgIcon : Type := mkSvgIcon {
  icon_className : list CssRule;
  icon_sx : option CssRule;
  icon_component : Svg
}.

Record MenuItem : Type := mkMenuItem {
  item_key : string;
  item_root : CssRule;
  item_onClick : M unit;
  item_iconRoot : CssRule;
  item_icon : SvgIcon;
  item_textPrimary : CssRule;
  item_text : string
}.

(** The elements of the fragment, with the props that vary; the constant
    ones ([inheritViewBox], the [Fade] transition, the two origins of the
    menu) are left out. *)
Inductive Element : Type :=
| ButtonBase (root : CssRule) (sx : option CssRule)
             (onClick : HTMLElement -> M unit)
             (text : string) (endIcon : SvgIcon)
| Button (variant : string) (onClick : M unit) (text : string)
| Menu (anchorEl : option HTMLElement) (open : bool) (onClose : M unit)
       (paper list_ : CssRule) (children : list MenuItem).

Definition render_item (classes : Classes) (op : Operation) : MenuItem :=
  {| item_key := label op;
     item_root := listItem classes;
     item_onClick := action op;
     item_iconRoot := listItemIcon classes;
     item_icon := {| icon_className := [];
                     icon_sx := Some [("fontSize", CssStr "1.6rem")];
                     icon_component := icon op |};
     item_textPrimary := listItemText classes;
     item_text := label op |}.

(** One render of the component: the children of the fragment, in order.
    The hooks are read from the world: the context values from [rainbow],
    the two state cells from [anchorEl] and [copied]. *)
Definition WalletDropdown (props : Props) (w : World) : list Element :=
  let classes := useStyles theme (dark props) in
  let walletCurrentAddress := walletCurrentAddress (rainbow w) in
  let chainId := chainId (rainbow w) in
  let open := Boolean (anchorEl w) in
  let operations := operations walletCurrentAddress chainId (copied w) in
  [ if truthy chainId
    then ButtonBase (button classes) (sx props) handleClick
           (truncateAddress walletCurrentAddress)
           {| icon_className :=
                cx [Some (endIcon classes);
                    and_class open (reverseEndIcon classes)];
              icon_sx := None;
              icon_component := DownTriangleSvg |}
    else Button "contained" connect "Connect Wallet" ;
    Menu (anchorEl w) open handleClose (paper classes) (list_ classes)
         (map (render_item classes) operations) ].

(** *** Events *)

(** What the user can do to the rendered tree. *)
Inductive Event : Type :=
| ClickButtonBase (currentTarget : HTMLElement)
| ClickButton
| CloseMenu
| ClickMenuItem (i : nat).

(** The handler an element attaches to an event.  The entries carry
    [onClick={action}] and the menu [onClose={handleClose}] with no guard
    of their own, and a [Menu] with a transition and without [keepMounted]
    keeps its backdrop and entries mounted, and clickable, while it is
    open and also during the exit transition, when [open] is false
    already.  The embedding does not record the transition: a click on an
    entry and a request to close are taken whatever [open]. *)
Definition handler_of (el : Element) (ev : Event) : option (M unit) :=
  match el, ev with
  | ButtonBase _ _ onClick _ _, ClickButtonBase e => Some (onClick e)
  | Button _ onClick _, ClickButton => Some onClick
  | Menu _ _ onClose _ _ _, CloseMenu => Some onClose
  | Menu _ _ _ _ _ children, ClickMenuItem i =>
      option_map item_onClick (nth_error children i)
  | _, _ => None
  end.

Fixpoint dispatch (view : list Element) (ev : Event) : option (M unit) :=
  match view with
  | [] => None
  | el :: rest =>
      match handler_of el ev with
      | Some h => Some h
      | None => dispatch rest ev
      end
  end.

(** One interaction: render, find the handler, run it.  [None] when no
    rendered element takes the event. *)
Definition step (X : External) (props : Props) (w : World) (ev : Event)
  : option World :=
  option_map (fun h => exec h X w) (dispatch (WalletDropdown props w) ev).

(** The provider replaces the session on its own (a pending connection
    resolves, the user switches account or network in the wallet). *)
Definition provider_update (r : RainbowContext) (w : World) : World :=
  {| anchorEl := anchorEl w; copied := copied w;
     rainbow := r; calls := calls w |}.

(** A run: the events of a session, each taken by the tree rendered from
    the state the previous one left; [None] once an event finds no
    handler. *)
Fixpoint run (X : External) (props : Props) (w : World) (evs : list Event)
  : option World :=
  match evs with
  | [] => Some w
  | ev :: rest =>
      match step X props w ev with
      | Some w' => run X props w' rest
      | None => None
      end
  end.

(** The states a mounted component can be in. *)
Inductive reachable : World -> Prop :=
| reach_mount (r : RainbowContext) : reachable (initial r)
| reach_event (X : External) (props : Props) (w w' : World) (ev : Event) :
    reachable w -> step X props w ev = Some w' -> reachable w'
| reach_provider (r : RainbowContext) (w : World) :
    reachable w -> reachable (provider_update r w).

(** *** Observations used in the statements *)

Definition menu_is_open (w : World) : bool := Boolean (anchorEl w).

Definition is_open_menu (el : Element) : bool :=
  match el with
  | Menu _ open _ _ _ _ => open
  | _ => false
  end.

Definition open_menus (view : list Element) : nat :=
  length (filter is_open_menu view).

Definition menu_labels (view : list Element) : list (list string) :=
  flat_map (fun el =>
              match el with
              | Menu _ _ _ _ _ children => [map item_text children]
              | _ => []
              end) view.

(** The component's own two cells. *)
Definition ui (w : World) : option HTMLElement * bool :=
  (anchorEl w, copied w).

(** What a call does to the session: only [connect()] and [disconnect()]
    reach the provider. *)
Definition session_effect (X : External) (c : ExtCall)
                          (r : RainbowContext) : RainbowContext :=
  match c with
  | CallConnect => ext_connect X r
  | CallDisconnect => ext_disconnect X r
  | CallWindowOpen _ | CallCopy _ => r
  end.

End Component.

Arguments anchorEl {HTMLElement} _.
Arguments copied {HTMLElement} _.
Arguments rainbow {HTMLElement} _.
Arguments calls {HTMLElement} _.
Arguments mkWorld {HTMLElement} _ _ _ _.
Arguments initial {HTMLElement} _.
Arguments exec {HTMLElement A} _ _ _.
Arguments ui {HTMLElement} _.
Arguments menu_is_open {HTMLElement} _.
Arguments provider_update {HTMLElement} _ _.

(** The labels of the menu, top to bottom. *)
Definition LABELS : list string :=
  ["Block explorer"; "Copy address"; "Disconnect"].

End Wallet.

(* ===================================================================== *)
(** ** Concrete instances on which the statements are run *)
(* ===================================================================== *)

Module Sample.
Import Wallet.

(** DOM nodes numbered in document order. *)
Definition Node : Type := nat.

Definition theme : Theme :=
  {| palette_primary_contrastText := "#FFF8F3";
     palette_themeBackground_normal := "#FFF0DD";
     palette_text_primary := "#101010" |}.

Definition CHAIN_ID_L1 : Z := 1.

Definition EXPLORER_URL (key : string) : string :=
  if String.eqb key "L1" then "https://etherscan.io"
  else "https://scrollscan.com".

Definition show (hash : option string) : string :=
  match hash with
  | Some h => h
  | None => "undefined"
  end.

Definition generateExploreLink (explorer : string) (hash : option string)
                               (kind : string) : string :=
  explorer ++ "/" ++ kind ++ "/" ++ show hash.

Definition truncateAddress (address : option string) : string :=
  match address with
  | Some a =>
      substring 0 6 a ++ "..." ++ substring (String.length a - 4) 4 a
  | None => "-"
  end.

Definition address : string := "0x52908400098527886E0F7030069857D2E4169EE7".

Definition connected : RainbowContext :=
  {| walletCurrentAddress := Some address; chainId := Some 534352%Z |}.

Definition on_l1 : RainbowContext :=
  {| walletCurrentAddress := Some address; chainId := Some 1%Z |}.

Definition disconnected : RainbowContext :=
  {| walletCurrentAddress := None; chainId := None |}.

(** A chain id without an address, as while the account is still loading. *)
Definition no_address : RainbowContext :=
  {| walletCurrentAddress := None; chainId := Some 534352%Z |}.

(** Every call succeeds: connecting yields [connected], disconnecting
    [disconnected]. *)
Definition all_succeed : External :=
  {| ext_connect := fun _ => connected;
     ext_disconnect := fun _ => disconnected;
     ext_copy := fun _ => true;
     ext_window_open := fun _ => true |}.

(** Every call fails: the session stays, [copy] reports [false] and
    [window.open] returns [null]. *)
Definition all_fail : External :=
  {| ext_connect := fun r => r;
     ext_disconnect := fun r => r;
     ext_copy := fun _ => false;
     ext_window_open := fun _ => false |}.

Definition light : Props := {| sx := None; dark := false |}.

Definition dark_wide : Props :=
  {| sx := Some [("width", CssStr "100%")]; dark := true |}.

Definition closed : World Node := initial connected.

(** The menu opened from the trigger, node 7. *)
Definition opened : World Node :=
  {| anchorEl := Some 7; copied := false; rainbow := connected; calls := [] |}.

Definition WalletDropdown : Props -> World Node -> list (Element Node) :=
  Wallet.WalletDropdown Node theme CHAIN_ID_L1 EXPLORER_URL
    generateExploreLink truncateAddress.

Definition step : External -> Props -> World Node -> Event Node
                  -> option (World Node) :=
  Wallet.step Node theme CHAIN_ID_L1 EXPLORER_URL
    generateExploreLink truncateAddress.

End Sample.

(* ===================================================================== *)
(** ** Observations on the rendered wallet dropdown *)
(* ===================================================================== *)

Module WalletView.
Import Wallet.

Section View.

Variable HTMLElement : Type.

(** The icons the user sees in the menu: those of the entries of a menu
    whose [open] prop holds, top to bottom. *)
Definition shown_icons (view : list (Element HTMLElement)) : list Svg :=
  flat_map (fun el =>
              match el with
              | Menu _ _ true _ _ _ children =>
                  map (fun it => icon_component (item_icon _ it)) children
              | _ => []
              end) view.

(** The React keys of the menu entries ([key={label}]). *)
Definition item_keys (view : list (Element HTMLElement)) : list string :=
  flat_map (fun el =>
              match el with
              | Menu _ _ _ _ _ _ children => map (item_key _) children
              | _ => []
              end) view.

(** The events whose handler calls a collaborator: every one but the
    trigger click and the request to close. *)
Definition issues_call (ev : Event HTMLElement) : bool :=
  match ev with
  | ClickButton _ | ClickMenuItem _ _ => true
  | ClickButtonBase _ _ | CloseMenu _ => false
  end.

End View.

(** Like [Sample.all_succeed] towards the wallet, but the clipboard and
    the popup are blocked. *)
Definition blocked : External :=
  {| ext_connect := fun _ => Sample.connected;
     ext_disconnect := fun _ => Sample.disconnected;
     ext_copy := fun _ => false;
     ext_window_open := fun _ => false |}.

Definition run : External -> Props -> World Sample.Node
                 -> list (Event Sample.Node) -> option (World Sample.Node) :=
  Wallet.run Sample.Node Sample.theme Sample.CHAIN_ID_L1 Sample.EXPLORER_URL
    Sample.generateExploreLink Sample.truncateAddress.

(** The state after opening the menu from node 7 and copying. *)
Definition copied_state : World Sample.Node :=
  mkWorld (Some 7) true Sample.connected [CallCopy (Some Sample.address)].

End WalletView.

(* ===================================================================== *)
(** ** Solidity values and failures, as the article contracts use them *)
(* ===================================================================== *)

Module Solidity.

(** How an external function ends: with a value, with
    [revert("reason")] (or a failed [require]), or with a compiler-made
    panic ([0x11] arithmetic overflow or underflow, [0x32] index out of
    bounds). *)
Inductive Result (A : Type) : Type :=
| Ok (a : A)
| Revert (reason : string)
| Panic (code : Z).

Arguments Ok {A} _.
Arguments Revert {A} _.
Arguments Panic {A} _.

Definition bind {A B : Type} (r : Result A) (k : A -> Result B) : Result B :=
  match r with
  | Ok a => k a
  | Revert reason => Revert reason
  | Panic code => Panic code
  end.

Notation "x <- r ;; k" := (bind r (fun x => k))
  (at level 61, r at next level, right associativity).

Definition UINT256_MAX : Z := 2 ^ 256 - 1.

(** Checked arithmetic on [uint256], as compiled since Solidity 0.8. *)
Definition add (a b : Z) : Result Z :=
  if (a + b <=? UINT256_MAX)%Z then Ok (a + b)%Z else Panic 17.

Definition sub (a b : Z) : Result Z :=
  if (b <=? a)%Z then Ok (a - b)%Z else Panic 17.

Definition mul (a b : Z) : Result Z :=
  if (a * b <=? UINT256_MAX)%Z then Ok (a * b)%Z else Panic 17.

(** [require(cond, reason)]. *)
Definition require (cond : bool) (reason : string) : Result unit :=
  if cond then Ok tt else Revert reason.

(** [bytes memory]: its elements, first to last. *)
Definition bytes : Type := list Byte.byte.

Definition length (b : bytes) : Z := Z.of_nat (List.length b).

(** [new bytes(n)]: [n] zero bytes. *)
Definition new_bytes (n : nat) : bytes := repeat Byte.x00 n.

(** [b[i]], read and written, with the bounds check of the compiler. *)
Definition get (b : bytes) (i : Z) : Result Byte.byte :=
  if (i <? 0)%Z then Panic 50
  else match nth_error b (Z.to_nat i) with
       | Some x => Ok x
       | None => Panic 50
       end.

Fixpoint update (b : bytes) (i : nat) (v : Byte.byte) : bytes :=
  match b, i with
  | [], _ => []
  | _ :: rest, O => v :: rest
  | x :: rest, S i' => x :: update rest i' v
  end.

Definition set (b : bytes) (i : Z) (v : Byte.byte) : Result bytes :=
  if ((0 <=? i) && (i <? length b))%Z%bool
  then Ok (update b (Z.to_nat i) v)
  else Panic 50.

(** [uint8(b)] of a [bytes1]. *)
Definition uint8 (b : Byte.byte) : Z := Z.of_N (Byte.to_N b).

(** The unsigned value of a byte string read big-endian, as for the
    conversions [uint160(bytes20)] and [address(bytes20)]. *)
Definition be_value (b : bytes) : Z :=
  fold_left (fun acc x => (acc * 256 + uint8 x)%Z) b 0%Z.

(** [bytes20(b)] for [b : bytes memory]: the first 20 bytes, padded with
    zeros on the right when [b] is shorter. *)
Definition bytes20 (b : bytes) : bytes :=
  firstn 20 (b ++ new_bytes 20).

(** [address(bytes20(..))]: an address is its 160-bit number. *)
Definition address (b20 : bytes) : Z := be_value b20.

(** [1_000 ether], in wei. *)
Definition ether : Z := 10 ^ 18.

End Solidity.

(* ===================================================================== *)
(** ** The Tipper contract of the ZKML article (src/unnamed/part_000) *)
(* ===================================================================== *)

Module Tipper.
Import Solidity.

(** The contract converts a [bytes memory] to [bytes20], which only a 0.8
    compiler accepts within the pragma's range, so its [uint] arithmetic
    is the checked one. *)

(** One round of the loop body
    [lastBytes[20-1-i] = proofCalldata[proofCalldata.length - (1+i*32)]]. *)
Definition copy_byte (proofCalldata lastBytes : bytes) (i : Z) : Result bytes :=
  m <- mul i 32 ;;
  k <- add 1 m ;;
  src <- sub (length proofCalldata) k ;;
  b <- get proofCalldata src ;;
  dst <- sub (20 - 1) i ;;
  set lastBytes dst b.

(** [for (uint i = 0; i < 20; i++)]: the body at [i = 0, 1, ..., 19]. *)
Fixpoint for_each (indices : list Z) (proofCalldata lastBytes : bytes)
  : Result bytes :=
  match indices with
  | [] => Ok lastBytes
  | i :: rest =>
      lastBytes' <- copy_byte proofCalldata lastBytes i ;;
      for_each rest proofCalldata lastBytes'
  end.

Definition extractTipRecipientFromProof (proofCalldata : bytes) : Result Z :=
  lastBytes <- for_each (map Z.of_nat (seq 0 20)) proofCalldata (new_bytes 20) ;;
  Ok (address (bytes20 lastBytes)).

(** The two contracts the Tipper calls.  [HALO2_VERIFIER.call(data)] is a
    low-level call: it hands back a success flag and the return data and
    never reverts the caller.  [IERC20(TIP_TOKEN).transfer(to, value)] is
    a high-level call: a revert of the token propagates, and the boolean
    it returns is at the caller's disposal. *)
Record Callees : Type := mkCallees {
  verifier_call : bytes -> bool * bytes;
  token_transfer : Z -> Z -> Result bool
}.

(** What a successful [verifyAndSendTip] has done: one [transfer]. *)
Record Transfer : Type := mkTransfer {
  transfer_to : Z;
  transfer_value : Z;
  transfer_returned : bool
}.

(** [success && data.length == 32 && uint8(data[31]) == 1], the operands
    evaluated left to right and only as far as needed. *)
Definition proof_accepted (success : bool) (data : bytes) : Result bool :=
  if success
  then if (length data =? 32)%Z
       then b <- get data 31 ;; Ok (uint8 b =? 1)%Z
       else Ok false
  else Ok false.

Definition verifyAndSendTip (C : Callees) (proofCalldata : bytes)
  : Result Transfer :=
  let (success, data) := verifier_call C proofCalldata in
  accepted <- proof_accepted success data ;;
  if accepted
  then
    to <- extractTipRecipientFromProof proofCalldata ;;
    returned <- token_transfer C to (1000 * ether)%Z ;;
    Ok {| transfer_to := to; transfer_value := (1000 * ether)%Z;
          transfer_returned := returned |}
  else Revert "Could not verify proof".

(** The calldata positions the loop reads, for a calldata of [len] bytes:
    the last byte of each of its last 20 words, first word first. *)
Definition read_positions (len : nat) : list nat :=
  map (fun j => len - 1 - 32 * (19 - j)) (seq 0 20).

End Tipper.

(* ===================================================================== *)
(** ** A calldata to run the Tipper on *)
(* ===================================================================== *)

Module TipSample.
Import Solidity.

(** The recipient of the article,
    [0x707e55a12557E89915D121932F83dEeEf09E5d70]. *)
Definition recipient : N := 0x707e55a12557E89915D121932F83dEeEf09E5d70.

Definition recipient_bytes : bytes :=
  [ Byte.x70; Byte.x7e; Byte.x55; Byte.xa1; Byte.x25; Byte.x57; Byte.xe8;
    Byte.x99; Byte.x15; Byte.xd1; Byte.x21; Byte.x93; Byte.x2f; Byte.x83;
    Byte.xde; Byte.xee; Byte.xf0; Byte.x9e; Byte.x5d; Byte.x70 ].

(** A byte as a 32-byte big-endian word. *)
Definition word_of (x : Byte.byte) : bytes := (new_bytes 31 ++ [x])%list.

Definition instance_words : list bytes := map word_of recipient_bytes.

(** A selector, one word of proof, and the twenty instance words. *)
Definition calldata : bytes :=
  ([Byte.x1e; Byte.x8e; Byte.x1e; Byte.x13] ++ repeat Byte.xab 32
   ++ concat instance_words)%list.

(** A verifier that accepts everything with the word 1, and a token whose
    [transfer] reports [false]. *)
Definition callees : Tipper.Callees :=
  {| Tipper.verifier_call := fun _ => (true, word_of Byte.x01);
     Tipper.token_transfer := fun _ _ => Ok false |}.

End TipSample.

(* ===================================================================== *)
(** ** The notebook cell of the ZKML article (src/unnamed/part_000) *)
(* ===================================================================== *)

From Stdlib Require HexString.
From Stdlib Require Import Ascii.

Module Colab.

Local Open Scope N_scope.

(** The lower-case hexadecimal digit of a value below 16. *)
Definition hex_digit (d : N) : ascii :=
  match d with
  | 0 => "0" | 1 => "1" | 2 => "2" | 3 => "3"
  | 4 => "4" | 5 => "5" | 6 => "6" | 7 => "7"
  | 8 => "8" | 9 => "9" | 10 => "a" | 11 => "b"
  | 12 => "c" | 13 => "d" | 14 => "e" | _ => "f"
  end%char.

(** The [w] low hexadecimal digits of [n], most significant first. *)
Fixpoint hex_fixed (w : nat) (n : N) : string :=
  match w with
  | O => EmptyString
  | S w' => String (hex_digit ((n / 16 ^ N.of_nat w') mod 16)) (hex_fixed w' n)
  end.

(** The number of hexadecimal digits of [n], one for zero. *)
Definition hex_len (n : N) : nat :=
  match n with
  | 0 => 1%nat
  | _ => S (N.to_nat (N.log2 n / 4))
  end.

(** [f"{n:040x}"] for a non-negative integer: lower-case hexadecimal,
    padded with zeros on the left to 40 characters, longer when [n] needs
    more digits. *)
Definition format_040x (n : N) : string :=
  hex_fixed (Nat.max 40 (hex_len n)) n.

(** [int(s, 16)] on digit strings; [None] stands for [ValueError], raised
    on the empty string and on a character that is no hexadecimal
    digit. *)
Fixpoint int16_from (s : string) (acc : N) : option N :=
  match s with
  | EmptyString => Some acc
  | String c s' =>
      match HexString.ascii_to_digit c with
      | Some d => int16_from s' (acc * 16 + d)
      | None => None
      end
  end.

Definition int16 (s : string) : option N :=
  match s with
  | EmptyString => None
  | _ => int16_from s 0
  end.

(** [range(0, n, 2)]. *)
Definition range2 (n : nat) : list nat :=
  map (fun k => (2 * k)%nat) (seq 0 (Nat.div2 (S n))).

(** A list comprehension whose element expression may raise. *)
Fixpoint all_or_raise (l : list (option N)) : option (list N) :=
  match l with
  | [] => Some []
  | None :: _ => None
  | Some x :: rest =>
      match all_or_raise rest with
      | Some xs => Some (x :: xs)
      | None => None
      end
  end.

(** [[int(s[i:i+2], 16) for i in range(0, len(s), 2)]]. *)
Definition pairs_to_ints (s : string) : option (list N) :=
  all_or_raise
    (map (fun i => int16 (substring i 2 s)) (range2 (String.length s))).

(** [address_to_byte_tensor]: the entries of the [uint8] tensor. *)
Definition address_to_byte_tensor (address : N) : option (list N) :=
  let address_hex := format_040x address in
  pairs_to_ints address_hex.

(** The number a list of bytes spells, most significant first. *)
Definition be_number (l : list N) : N :=
  fold_left (fun acc x => acc * 256 + x) l 0.

(** The base-256 digits of [n] below position [m], most significant
    first. *)
Fixpoint base256 (m : nat) (n : N) : list N :=
  match m with
  | O => []
  | S m' => (n / 256 ^ N.of_nat m') mod 256 :: base256 m' n
  end.

End Colab.

(* ===================================================================== *)
(** ** The reader contracts of the L1SLOAD article (src/unnamed/part_001) *)
(* ===================================================================== *)

Module L1Sload.
Import Solidity.

(** [struct MyStruct { uint a; address b; bool c; uint d; }] *)
Record MyStruct : Type := mkMyStruct {
  a : Z;
  b : Z;
  c : bool;
  d : Z
}.

(** [abi.decode(returnValue, (uint))]: the first word of the return data;
    a revert without reason when the data is shorter than one word. *)
Definition decode_uint (returnValue : list Z) : Result Z :=
  match returnValue with
  | w :: _ => Ok w
  | [] => Revert ""
  end.

(** [abi.decode(returnValue, (uint, uint, uint))]. *)
Definition decode_uint3 (returnValue : list Z) : Result (Z * Z * Z) :=
  match returnValue with
  | w0 :: w1 :: w2 :: _ => Ok (w0, w1, w2)
  | _ => Revert ""
  end.

(** [uint104(x)] and [uint160(x)]: the low bits. *)
Definition uint104 (x : Z) : Z := x mod 2 ^ 104.
Definition uint160 (x : Z) : Z := x mod 2 ^ 160.

Section Contracts.

(** [uint(keccak256(abi.encodePacked(w1, ..., wn)))] for 32-byte values
    [w1 ... wn]: the packed encoding is the words side by side, so the
    hash is a function of the list of words. *)
Variable keccak256 : list Z -> Z.

(** [L1_SLOAD_ADDRESS.staticcall(abi.encodePacked(contractAddress, s1,
    ..., sn))]: the success flag and the return data, word by word. *)
Variable staticcall : Z -> list Z -> bool * list Z.

(** The block every reader repeats: call, revert with "L1SLOAD failed"
    unless the call succeeded, decode one word. *)
Definition read_word (contractAddress slot : Z) : Result Z :=
  let (success, returnValue) := staticcall contractAddress [slot] in
  if negb success then Revert "L1SLOAD failed"
  else decode_uint returnValue.

(** [L2ArrayDemo.getNum] *)
Definition getNum (contractAddress arraySlot arrayIndex : Z) : Result Z :=
  slot <- add arraySlot arrayIndex ;;
  read_word contractAddress slot.

(** [getArrayLength] of [L2DynamicArrayDemo] and [L2Uint104ArrayDemo]. *)
Definition getArrayLength (contractAddress arraySlot : Z) : Result Z :=
  read_word contractAddress arraySlot.

(** [L2DynamicArrayDemo.retrieveArrayElement] *)
Definition retrieveArrayElement (contractAddress arraySlot arrayIndex : Z)
  : Result Z :=
  len <- getArrayLength contractAddress arraySlot ;;
  _ <- require (arrayIndex <? len)%Z "Out of bounds index" ;;
  arrayElementSlot <- add (keccak256 [arraySlot]) arrayIndex ;;
  read_word contractAddress arrayElementSlot.

(** [L2Uint104ArrayDemo.retrieveArrayElement]; [uint(256)/104] is 2. *)
Definition retrieveArrayElement104 (contractAddress arraySlot arrayIndex : Z)
  : Result Z :=
  len <- getArrayLength contractAddress arraySlot ;;
  _ <- require (arrayIndex <? len)%Z "Out of bounds index" ;;
  arrayElementSlot <-
    add (keccak256 [arraySlot]) (arrayIndex / (256 / 104))%Z ;;
  word <- read_word contractAddress arrayElementSlot ;;
  shift <- mul (arrayIndex mod (256 / 104))%Z 104 ;;
  Ok (uint104 (Z.shiftr word shift)).

(** [L2StructDemo.getArrayLength], which reads the three slots of the
    struct in one call. *)
Definition getStruct (contractAddress structSlot : Z) : Result MyStruct :=
  slot1 <- add structSlot 1 ;;
  slot2 <- add structSlot 2 ;;
  let (success, returnValue) :=
    staticcall contractAddress [structSlot; slot1; slot2] in
  if negb success then Revert "L1SLOAD failed"
  else
    words <- decode_uint3 returnValue ;;
    let '(slot0, slot1, slot2) := words in
    Ok {| a := slot0;
          b := uint160 slot1;
          c := (Z.shiftr slot1 160 =? 1)%Z;
          d := slot2 |}.

(** [L2NestingDemo.getArrayLength] *)
Definition getNested (contractAddress mappingSlot mappingKey arrayIndex : Z)
  : Result Z :=
  mappingArraySlot <-
    add (keccak256 [keccak256 [mappingKey; mappingSlot]]) arrayIndex ;;
  read_word contractAddress mappingArraySlot.

End Contracts.

(** A toy hash and an L1 storage to run the readers on: the storage of
    [L1Uint104Array] after its constructor (five [uint104] in three slots
    from the hash of slot 0, the length in slot 0), and of [L1StructDemo]
    at slot 7. *)
Definition toy_hash (words : list Z) : Z :=
  (1000 + 100 * fold_left Z.add words 0)%Z.

Definition toy_storage (slot : Z) : Z :=
  if (slot =? 0)%Z then 5
  else if (slot =? 1000)%Z then 10 + 20 * 2 ^ 104
  else if (slot =? 1001)%Z then 30 + 40 * 2 ^ 104
  else if (slot =? 1002)%Z then 50
  else if (slot =? 7)%Z then 10
  else if (slot =? 8)%Z then 3735928559 + 1 * 2 ^ 160
  else if (slot =? 9)%Z then 20
  else 0.

Definition toy_staticcall (contractAddress : Z) (slots : list Z)
  : bool * list Z :=
  (true, map toy_storage slots).

End L1Sload.

(* ===================================================================== *)
(** ** Facts about the layout constants *)
(* ===================================================================== *)

Module LayoutFacts.
Import Layout.

Lemma MOBILE_FULL_SCREEN_HEIGHT_value :
  MOBILE_FULL_SCREEN_HEIGHT = "calc(100vh - 64px - 132.5px)".
Proof. reflexivity. Qed.

Lemma FULL_SCREEN_HEIGHT_value :
  FULL_SCREEN_HEIGHT = "calc(100vh - 75px - 143px)".
Proof. reflexivity. Qed.

Lemma heights_differ : FULL_SCREEN_HEIGHT <> MOBILE_FULL_SCREEN_HEIGHT.
Proof.
  rewrite FULL_SCREEN_HEIGHT_value, MOBILE_FULL_SCREEN_HEIGHT_value.
  intro H. apply String.eqb_eq in H. discriminate H.
Qed.

(** C10. [PAGE_MIN_HEIGHT] has exactly two positions, both hold the mobile
    full-screen height, and the desktop [FULL_SCREEN_HEIGHT] is not an
    element of it. *)
Theorem PAGE_MIN_HEIGHT_is_mobile_twice :
  length PAGE_MIN_HEIGHT = 2
  /\ nth_error PAGE_MIN_HEIGHT 0 = Some MOBILE_FULL_SCREEN_HEIGHT
  /\ nth_error PAGE_MIN_HEIGHT 1 = Some MOBILE_FULL_SCREEN_HEIGHT
  /\ nth_error PAGE_MIN_HEIGHT 0 = nth_error PAGE_MIN_HEIGHT 1
  /\ ~ In FULL_SCREEN_HEIGHT PAGE_MIN_HEIGHT.
Proof.
  repeat split.
  intros [H | [H | []]]; apply heights_differ; symmetry; exact H.
Qed.

End LayoutFacts.

(* ===================================================================== *)
(** ** Facts about the wallet dropdown *)
(* ===================================================================== *)

Module WalletFacts.
Import Wallet.

Section Facts.

Context {HTMLElement : Type}.
Context (theme : Theme) (CHAIN_ID_L1 : Z) (EXPLORER_URL : string -> string)
        (generateExploreLink : string -> option string -> string -> string)
        (truncateAddress : option string -> string).

Local Abbreviation render :=
  (WalletDropdown HTMLElement theme CHAIN_ID_L1 EXPLORER_URL
     generateExploreLink truncateAddress).
Local Abbreviation step :=
  (Wallet.step HTMLElement theme CHAIN_ID_L1 EXPLORER_URL
     generateExploreLink truncateAddress).
Local Abbreviation reachable :=
  (Wallet.reachable HTMLElement theme CHAIN_ID_L1 EXPLORER_URL
     generateExploreLink truncateAddress).
Local Abbreviation operations :=
  (Wallet.operations HTMLElement CHAIN_ID_L1 EXPLORER_URL generateExploreLink).
Local Abbreviation viewScan :=
  (Wallet.viewScan HTMLElement CHAIN_ID_L1 EXPLORER_URL generateExploreLink).
Local Abbreviation World := (Wallet.World HTMLElement).
Local Abbreviation Event := (Wallet.Event HTMLElement).

(** *** What each event runs *)

(** The handler run by an event, read off the rendered tree. *)
Lemma step_ClickButtonBase X props (w : World) e :
  step X props w (ClickButtonBase _ e) =
  if truthy (chainId (rainbow w))
  then Some (exec (handleClick _ e) X w)
  else None.
Proof.
  unfold Wallet.step, Wallet.WalletDropdown; simpl.
  destruct (truthy (chainId (rainbow w))), (anchorEl w); reflexivity.
Qed.

Lemma step_ClickButton X props (w : World) :
  step X props w (ClickButton _) =
  if truthy (chainId (rainbow w))
  then None
  else Some (exec (connect _) X w).
Proof.
  unfold Wallet.step, Wallet.WalletDropdown; simpl.
  destruct (truthy (chainId (rainbow w))), (anchorEl w); reflexivity.
Qed.

Lemma step_CloseMenu X props (w : World) :
  step X props w (CloseMenu _) = Some (exec (handleClose _) X w).
Proof.
  unfold Wallet.step, Wallet.WalletDropdown; simpl.
  destruct (truthy (chainId (rainbow w))); reflexivity.
Qed.

Lemma step_ClickMenuItem X props (w : World) i :
  step X props w (ClickMenuItem _ i) =
  option_map (fun op => exec (action _ op) X w)
    (nth_error
       (operations (walletCurrentAddress (rainbow w))
                   (chainId (rainbow w)) (copied w)) i).
Proof.
  unfold Wallet.step, Wallet.WalletDropdown; simpl.
  destruct (truthy (chainId (rainbow w))); simpl;
    destruct i as [|[|[|[|i]]]]; reflexivity.
Qed.

(** The three entries, by position. *)
Lemma operations_nth addr cid cp i op :
  nth_error (operations addr cid cp) i = Some op ->
  (i = 0 /\ label _ op = "Block explorer"
         /\ action _ op = viewScan addr cid)
  \/ (i = 1 /\ label _ op = "Copy address"
            /\ action _ op = copyAddress _ addr)
  \/ (i = 2 /\ label _ op = "Disconnect"
            /\ action _ op = bind _ (disconnect _) (fun _ => handleClose _)).
Proof.
  destruct i as [|[|[|i]]]; simpl; intros H.
  - inversion H; subst; auto.
  - inversion H; subst; auto.
  - inversion H; subst; auto 6.
  - destruct i; discriminate H.
Qed.

(** What each handler does to the world. *)
Lemma exec_handleClick X (w : World) e :
  exec (handleClick _ e) X w
  = mkWorld (Some e) (copied w) (rainbow w) (calls w).
Proof. reflexivity. Qed.

Lemma exec_handleClose X (w : World) :
  exec (handleClose _) X w = mkWorld None false (rainbow w) (calls w).
Proof. reflexivity. Qed.

Lemma exec_viewScan X (w : World) addr cid :
  exec (viewScan addr cid) X w
  = mkWorld (anchorEl w) (copied w) (rainbow w)
      (calls w ++
       [CallWindowOpen
          (generateExploreLink
             (EXPLORER_URL (explorer_key CHAIN_ID_L1 cid)) addr "address")]).
Proof. reflexivity. Qed.

Lemma exec_copyAddress X (w : World) addr :
  exec (copyAddress _ addr) X w
  = mkWorld (anchorEl w) true (rainbow w) (calls w ++ [CallCopy addr]).
Proof. reflexivity. Qed.

Lemma exec_disconnect_action X (w : World) :
  exec (bind _ (disconnect _) (fun _ => handleClose _)) X w
  = mkWorld None false (ext_disconnect X (rainbow w))
      (calls w ++ [CallDisconnect]).
Proof. reflexivity. Qed.

Lemma exec_connect X (w : World) :
  exec (connect _) X w
  = mkWorld (anchorEl w) (copied w) (ext_connect X (rainbow w))
      (calls w ++ [CallConnect]).
Proof. reflexivity. Qed.

(** An item click that is taken runs one of the three actions. *)
Lemma step_ClickMenuItem_inv X props (w w' : World) i :
  step X props w (ClickMenuItem _ i) = Some w' ->
  (i = 0 /\ w' = exec (viewScan (walletCurrentAddress (rainbow w))
                                (chainId (rainbow w))) X w)
  \/ (i = 1 /\ w' = exec (copyAddress _ (walletCurrentAddress (rainbow w)))
                         X w)
  \/ (i = 2 /\ w' = exec (bind _ (disconnect _) (fun _ => handleClose _))
                         X w).
Proof.
  rewrite step_ClickMenuItem.
  destruct (nth_error _ i) as [op |] eqn:Hop; simpl; [| discriminate].
  intros H; injection H as <-.
  apply operations_nth in Hop.
  destruct Hop as [(-> & _ & ->) | [(-> & _ & ->) | (-> & _ & ->)]]; auto.
Qed.

Ltac invert_step H :=
  match type of H with
  | Wallet.step _ _ _ _ _ _ _ _ _ (ClickButtonBase _ _) = Some _ =>
      rewrite step_ClickButtonBase in H;
      destruct (truthy _) eqn:?; [| discriminate H];
      injection H as <-; rewrite ?exec_handleClick
  | Wallet.step _ _ _ _ _ _ _ _ _ (ClickButton _) = Some _ =>
      rewrite step_ClickButton in H;
      destruct (truthy _) eqn:?; [discriminate H |];
      injection H as <-; rewrite ?exec_connect
  | Wallet.step _ _ _ _ _ _ _ _ _ (CloseMenu _) = Some _ =>
      rewrite step_CloseMenu in H;
      injection H as <-; rewrite ?exec_handleClose
  | Wallet.step _ _ _ _ _ _ _ _ _ (ClickMenuItem _ _) = Some _ =>
      apply step_ClickMenuItem_inv in H;
      destruct H as [[-> ->] | [[-> ->] | [-> ->]]];
      rewrite ?exec_viewScan, ?exec_copyAddress, ?exec_disconnect_action
  end.

(** *** The menu *)

(** C4. The menu lists exactly three actions, in the order block explorer,
    copy address, disconnect: the labels of [operations] and of the
    rendered menu items are the same three strings for every address,
    chain id, copied flag, world and props; and the three actions do what
    the labels say: they call [window.open], [copy] and [disconnect]. *)
Theorem menu_lists_three_static_actions :
  (forall addr cid cp, map (label _) (operations addr cid cp) = LABELS)
  /\ (forall props (w : World), menu_labels _ (render props w) = [LABELS])
  /\ (forall X (w : World) addr cid cp,
        map (fun op => calls (exec (action _ op) X w)) (operations addr cid cp)
        = [ (calls w ++
             [CallWindowOpen
                (generateExploreLink
                   (EXPLORER_URL (explorer_key CHAIN_ID_L1 cid)) addr
                   "address")])%list;
            (calls w ++ [CallCopy addr])%list;
            (calls w ++ [CallDisconnect])%list ]).
Proof.
  split; [| split].
  - intros addr cid cp. reflexivity.
  - intros props w. unfold Wallet.WalletDropdown. simpl.
    destruct (truthy (chainId (rainbow w))); reflexivity.
  - intros X w addr cid cp. reflexivity.
Qed.

(** C3. Clicking the trigger while the menu is closed opens it: the open
    flag is true afterwards and the next render, under any props, contains
    exactly one open menu; and in every state the open flag is true exactly
    when the anchor element is not null, the rendered tree holding one open
    menu then and none otherwise. *)
Theorem trigger_click_opens_one_menu X props (w w' : World) e :
  anchorEl w = None ->
  step X props w (ClickButtonBase _ e) = Some w' ->
  (menu_is_open w = false /\ open_menus _ (render props w) = 0)
  /\ menu_is_open w' = true
  /\ anchorEl w' = Some e
  /\ (forall props', open_menus _ (render props' w') = 1)
  /\ (forall v : World, menu_is_open v = true <-> anchorEl v <> None)
  /\ (forall props' (v : World),
        open_menus _ (render props' v) = if menu_is_open v then 1 else 0).
Proof.
  intros Hclosed Hstep.
  assert (Hcount : forall props' (v : World),
             open_menus _ (render props' v) = if menu_is_open v then 1 else 0).
  { intros props' v. unfold Wallet.WalletDropdown, open_menus, menu_is_open.
    simpl. destruct (truthy (chainId (rainbow v))), (anchorEl v); reflexivity. }
  invert_step Hstep.
  repeat split.
  - unfold menu_is_open. rewrite Hclosed. reflexivity.
  - rewrite Hcount. unfold menu_is_open. rewrite Hclosed. reflexivity.
  - intros props'. rewrite Hcount. reflexivity.
  - unfold menu_is_open. destruct (anchorEl v); [discriminate | intros H; discriminate H].
  - unfold menu_is_open. destruct (anchorEl v); [reflexivity | intros H; contradiction H; reflexivity].
  - exact Hcount.
Qed.

(** C1, amended. Of the three menu actions only Disconnect closes the
    menu: after its handler the anchor element is null and the copied flag
    false.  Block explorer and Copy address leave the anchor element as it
    was, so the menu they were clicked in stays open. *)
Theorem only_disconnect_closes_menu X props (w w' : World) i :
  menu_is_open w = true ->
  step X props w (ClickMenuItem _ i) = Some w' ->
  exists l, nth_error LABELS i = Some l
     /\ (l = "Disconnect" ->
         anchorEl w' = None /\ copied w' = false /\ menu_is_open w' = false)
     /\ (l = "Block explorer" \/ l = "Copy address" ->
         anchorEl w' = anchorEl w /\ menu_is_open w' = true).
Proof.
  intros Hopen Hstep. invert_step Hstep.
  - exists "Block explorer". repeat split; auto; discriminate.
  - exists "Copy address". repeat split; auto; discriminate.
  - exists "Disconnect". split; [reflexivity |]. split.
    + intros _. repeat split.
    + intros [Hl | Hl]; discriminate Hl.
Qed.

(** *** The copied flag *)

(** What the handlers do keep of the copied flag: Copy address sets it
    and leaves the anchor alone; once set it stays set under every event
    that leaves the menu open; every event that closes an open menu resets
    it, as [handleClose] always does; and the provider never touches
    it. *)
Lemma copied_kept_while_open_reset_on_close :
  (forall X props (w w' : World),
      step X props w (ClickMenuItem _ 1) = Some w' ->
      copied w' = true /\ anchorEl w' = anchorEl w)
  /\ (forall X props (w w' : World) ev,
        step X props w ev = Some w' ->
        copied w = true -> menu_is_open w' = true -> copied w' = true)
  /\ (forall X props (w w' : World) ev,
        step X props w ev = Some w' ->
        menu_is_open w = true -> menu_is_open w' = false ->
        copied w' = false)
  /\ (forall X (w : World), ui (exec (handleClose _) X w) = (None, false))
  /\ (forall r (w : World), ui (provider_update r w) = ui w).
Proof.
  split; [| split; [| split; [| split]]].
  - intros X props w w' Hstep.
    apply step_ClickMenuItem_inv in Hstep.
    destruct Hstep as [[H _] | [[_ ->] | [H _]]]; try discriminate H.
    rewrite exec_copyAddress. split; reflexivity.
  - intros X props w w' ev Hstep Hcopied Hopen.
    destruct ev; invert_step Hstep; simpl in *; auto; discriminate.
  - intros X props w w' ev Hstep Hopen Hclosed.
    destruct ev; invert_step Hstep; simpl in *; auto; try discriminate;
      unfold menu_is_open in *; simpl in *; congruence.
  - intros X w. reflexivity.
  - intros r w. reflexivity.
Qed.

(** *** The wallet session *)

(** C5. The component never writes the session: after any event the
    session is the one the provider made of it in answer to the calls the
    handler issued, and [connect()] is issued only by the Connect Wallet
    button, [disconnect()] only by the Disconnect entry; every other event
    leaves the session exactly as it was and changes at most the anchor
    element, the copied flag and the log of calls. *)
Theorem session_changes_only_through_provider X props (w w' : World) ev :
  step X props w ev = Some w' ->
  (exists cs,
      calls w' = (calls w ++ cs)%list
      /\ rainbow w' = fold_left (fun r c => session_effect X c r) cs (rainbow w)
      /\ (In CallConnect cs <-> ev = ClickButton _)
      /\ (In CallDisconnect cs <-> ev = ClickMenuItem _ 2))
  /\ (ev <> ClickButton _ -> ev <> ClickMenuItem _ 2 -> rainbow w' = rainbow w).
Proof.
  intros Hstep.
  assert (Hnil : forall c : ExtCall, In c [] <-> False) by (intros c; tauto).
  assert (Hone : forall c d : ExtCall, In c [d] <-> d = c)
    by (intros c d; simpl; tauto).
  assert (Hquiet : forall (a : option HTMLElement) (b : bool) (e : Event),
             e <> ClickButton _ -> e <> ClickMenuItem _ 2 ->
             (exists cs,
                 calls w = (calls w ++ cs)%list
                 /\ rainbow w
                    = fold_left (fun r c => session_effect X c r) cs (rainbow w)
                 /\ (In CallConnect cs <-> e = ClickButton _)
                 /\ (In CallDisconnect cs <-> e = ClickMenuItem _ 2))
             /\ (e <> ClickButton _ -> e <> ClickMenuItem _ 2 ->
                 rainbow w = rainbow w)).
  { intros _ _ e Hc Hd. split; [exists [] | reflexivity].
    rewrite app_nil_r, !Hnil. tauto. }
  assert (Hcall : forall (c : ExtCall) (e : Event),
             c <> CallConnect -> c <> CallDisconnect ->
             e <> ClickButton _ -> e <> ClickMenuItem _ 2 ->
             exists cs,
               (calls w ++ [c])%list = (calls w ++ cs)%list
               /\ rainbow w
                  = fold_left (fun r c => session_effect X c r) cs (rainbow w)
               /\ (In CallConnect cs <-> e = ClickButton _)
               /\ (In CallDisconnect cs <-> e = ClickMenuItem _ 2)).
  { intros c e Hc Hd He He'. exists [c]. rewrite !Hone.
    destruct c; simpl; try tauto; contradiction. }
  destruct ev as [e | | | i]; invert_step Hstep; simpl.
  - apply (Hquiet (Some e) (copied w)); discriminate.
  - split; [exists [CallConnect] | intros Hne; contradiction Hne; reflexivity].
    rewrite !Hone. repeat split; try reflexivity; discriminate.
  - apply (Hquiet None false); discriminate.
  - split; [apply Hcall; discriminate | reflexivity].
  - split; [apply Hcall; discriminate | reflexivity].
  - split; [exists [CallDisconnect]
           | intros _ Hne; contradiction Hne; reflexivity].
    rewrite !Hone. repeat split; try reflexivity; discriminate.
Qed.

(** *** Outcomes of the delegated calls *)

(** C6. No handler looks at the outcome of a delegated call: whatever the
    collaborators answer ([copy] true or false, [window.open] a window or
    null, the provider changing the session or not), each handler returns
    the same value (the unit, never an error), leaves the same anchor
    element and copied flag, and issues the same calls; so does every
    event dispatched through the rendered tree. *)
Theorem handlers_ignore_call_outcomes X1 X2 (w : World) :
  (forall addr cid,
      fst (viewScan addr cid X1 w) = fst (viewScan addr cid X2 w)
      /\ ui (exec (viewScan addr cid) X1 w) = ui (exec (viewScan addr cid) X2 w)
      /\ ui (exec (viewScan addr cid) X1 w) = ui w)
  /\ (forall addr,
        fst (copyAddress _ addr X1 w) = fst (copyAddress _ addr X2 w)
        /\ ui (exec (copyAddress _ addr) X1 w)
           = ui (exec (copyAddress _ addr) X2 w)
        /\ ui (exec (copyAddress _ addr) X1 w) = (anchorEl w, true))
  /\ (forall addr cid cp op,
        nth_error (operations addr cid cp) 2 = Some op ->
        fst (action _ op X1 w) = fst (action _ op X2 w)
        /\ ui (exec (action _ op) X1 w) = ui (exec (action _ op) X2 w)
        /\ ui (exec (action _ op) X1 w) = (None, false))
  /\ ui (exec (connect _) X1 w) = ui (exec (connect _) X2 w)
  /\ (forall props ev,
        option_map ui (step X1 props w ev) = option_map ui (step X2 props w ev)
        /\ option_map calls (step X1 props w ev)
           = option_map calls (step X2 props w ev)).
Proof.
  split; [| split; [| split; [| split]]].
  - intros addr cid. rewrite !exec_viewScan. repeat split.
  - intros addr. rewrite !exec_copyAddress. repeat split.
  - intros addr cid cp op Hop. injection Hop as <-. simpl.
    rewrite !exec_disconnect_action. repeat split.
  - rewrite !exec_connect. reflexivity.
  - intros props ev. destruct ev as [e | | | i].
    + rewrite !step_ClickButtonBase.
      destruct (truthy _); split; reflexivity.
    + rewrite !step_ClickButton.
      destruct (truthy _); split; reflexivity.
    + rewrite !step_CloseMenu. split; reflexivity.
    + rewrite !step_ClickMenuItem.
      destruct i as [|[|[|i]]]; simpl; try (split; reflexivity).
      destruct i; split; reflexivity.
Qed.

(** *** Props *)

(** The handler attached to an event does not depend on the props. *)
Lemma dispatch_props_irrelevant p1 p2 (w : World) (ev : Event) :
  dispatch _ (render p1 w) ev = dispatch _ (render p2 w) ev.
Proof.
  unfold Wallet.WalletDropdown. simpl.
  destruct (truthy (chainId (rainbow w))), (anchorEl w), ev as [e | | | i];
    simpl; try reflexivity;
    destruct i as [|[|[|[|i]]]]; reflexivity.
Qed.

Lemma step_props_irrelevant p1 p2 X (w : World) (ev : Event) :
  step X p1 w ev = step X p2 w ev.
Proof.
  unfold Wallet.step.
  rewrite (dispatch_props_irrelevant p1 p2). reflexivity.
Qed.

Lemma run_props_irrelevant p1 p2 X (evs : list Event) :
  forall w : World,
    Wallet.run HTMLElement theme CHAIN_ID_L1 EXPLORER_URL generateExploreLink
      truncateAddress X p1 w evs
    = Wallet.run HTMLElement theme CHAIN_ID_L1 EXPLORER_URL generateExploreLink
        truncateAddress X p2 w evs.
Proof.
  induction evs as [| ev rest IH]; intros w; simpl.
  - reflexivity.
  - rewrite (step_props_irrelevant p1 p2).
    destruct (step X p2 w ev) as [w' |]; [apply IH | reflexivity].
Qed.

(** C7. [sx] and [dark] are presentational: two renders that differ only
    in their props show the same menu labels, attach the same handler to
    every event, and make the same transition on every event; hence two
    runs over the same events that differ only in their props pass through
    the same states. *)
Theorem props_are_presentational p1 p2 X (w : World) :
  menu_labels _ (render p1 w) = menu_labels _ (render p2 w)
  /\ menu_labels _ (render p1 w) = [LABELS]
  /\ open_menus _ (render p1 w) = open_menus _ (render p2 w)
  /\ (forall ev, dispatch _ (render p1 w) ev = dispatch _ (render p2 w) ev)
  /\ (forall ev, step X p1 w ev = step X p2 w ev)
  /\ (forall evs,
        Wallet.run HTMLElement theme CHAIN_ID_L1 EXPLORER_URL
          generateExploreLink truncateAddress X p1 w evs
        = Wallet.run HTMLElement theme CHAIN_ID_L1 EXPLORER_URL
            generateExploreLink truncateAddress X p2 w evs).
Proof.
  assert (Hlabels : forall p, menu_labels _ (render p w) = [LABELS]).
  { intros p. unfold Wallet.WalletDropdown. simpl.
    destruct (truthy (chainId (rainbow w))); reflexivity. }
  split; [rewrite !Hlabels; reflexivity |].
  split; [apply Hlabels |].
  split; [| split; [| split]].
  - unfold Wallet.WalletDropdown, open_menus. simpl.
    destruct (truthy (chainId (rainbow w))), (anchorEl w); reflexivity.
  - intros ev. apply dispatch_props_irrelevant.
  - intros ev. apply step_props_irrelevant.
  - intros evs. apply run_props_irrelevant.
Qed.

(** *** The explorer link *)

Lemma strict_eq_true_iff (cid : option Z) (c : Z) :
  strict_eq cid c = true <-> cid = Some c.
Proof.
  destruct cid as [z |]; simpl.
  - rewrite Z.eqb_eq. split; [intros -> | intros H; injection H]; auto.
  - split; discriminate.
Qed.

Lemma explorer_key_cases (cid : option Z) :
  (explorer_key CHAIN_ID_L1 cid = "L1" <-> cid = Some CHAIN_ID_L1)
  /\ (explorer_key CHAIN_ID_L1 cid = "L2" <-> cid <> Some CHAIN_ID_L1).
Proof.
  unfold explorer_key.
  destruct (strict_eq cid CHAIN_ID_L1) eqn:Heq.
  - apply strict_eq_true_iff in Heq.
    split; split; auto; try discriminate. intros Hne. contradiction.
  - assert (Hne : cid <> Some CHAIN_ID_L1).
    { intros H. apply strict_eq_true_iff in H. congruence. }
    split; split; auto; try discriminate. intros H. contradiction.
Qed.

(** C8. The Block explorer entry opens the link built by
    [generateExploreLink] from [EXPLORER_URL[key]], the current wallet
    address and the kind ["address"], where [key] is ["L1"] exactly when
    the chain id is [CHAIN_ID.L1] and ["L2"] for every other chain id,
    [undefined] included. *)
Theorem block_explorer_link_by_chain X props (w w' : World) :
  step X props w (ClickMenuItem _ 0) = Some w' ->
  exists key,
    calls w' =
      (calls w ++
       [CallWindowOpen
          (generateExploreLink (EXPLORER_URL key)
             (walletCurrentAddress (rainbow w)) "address")])%list
    /\ (key = "L1" <-> chainId (rainbow w) = Some CHAIN_ID_L1)
    /\ (key = "L2" <-> chainId (rainbow w) <> Some CHAIN_ID_L1)
    /\ (key = "L1" \/ key = "L2").
Proof.
  intros Hstep.
  apply step_ClickMenuItem_inv in Hstep.
  destruct Hstep as [[_ ->] | [[H _] | [H _]]]; try discriminate H.
  rewrite exec_viewScan. simpl.
  exists (explorer_key CHAIN_ID_L1 (chainId (rainbow w))).
  split; [reflexivity |].
  destruct (explorer_key_cases (chainId (rainbow w))) as [H1 H2].
  split; [exact H1 | split; [exact H2 |]].
  unfold explorer_key. destruct (strict_eq _ _); auto.
Qed.

(** *** Connected view or Connect Wallet *)

(** C9. The first rendered element is chosen by the truthiness of the
    chain id alone.  With a truthy chain id it is the trigger button,
    carrying [handleClick] and the truncated address, whatever the address
    is (a missing address included) and whatever the local state; with a
    falsy chain id (undefined or 0) it is the contained Connect Wallet
    button whose click handler is [connect]. *)
Theorem trigger_is_chosen_by_chainId props (w : World) :
  exists first menu,
    render props w = [first; menu]
    /\ (truthy (chainId (rainbow w)) = true ->
        (exists root icon,
            first = ButtonBase _ root (sx props) (handleClick _)
                      (truncateAddress (walletCurrentAddress (rainbow w))) icon)
        /\ (forall X e,
               step X props w (ClickButtonBase _ e)
               = Some (exec (handleClick _ e) X w))
        /\ (forall X, step X props w (ClickButton _) = None))
    /\ (truthy (chainId (rainbow w)) = false ->
        first = Button _ "contained" (connect _) "Connect Wallet"
        /\ (forall X,
               step X props w (ClickButton _) = Some (exec (connect _) X w))
        /\ (forall X e, step X props w (ClickButtonBase _ e) = None))
    /\ (forall a c cs cid,
           truthy cid = true ->
           exists root icon,
             hd_error (render props (mkWorld a c (mkRainbow None cid) cs))
             = Some (ButtonBase _ root (sx props) (handleClick _)
                       (truncateAddress None) icon)).
Proof.
  unfold Wallet.WalletDropdown. simpl.
  do 2 eexists. split; [reflexivity |].
  split; [| split].
  - intros Ht. rewrite Ht. split; [do 2 eexists; reflexivity |].
    split.
    + intros X e. rewrite step_ClickButtonBase, Ht. reflexivity.
    + intros X. rewrite step_ClickButton, Ht. reflexivity.
  - intros Hf. rewrite Hf. split; [reflexivity |].
    split.
    + intros X. rewrite step_ClickButton, Hf. reflexivity.
    + intros X e. rewrite step_ClickButtonBase, Hf. reflexivity.
  - intros a c cs cid Ht. rewrite Ht. do 2 eexists. reflexivity.
Qed.

End Facts.

(** *** The statements at concrete inputs *)

(** The props do reach the rendered tree: the dark variant draws a border
    around the trigger that the light one lacks. *)
Example dark_changes_the_rendering :
  Sample.WalletDropdown Sample.light Sample.closed
  <> Sample.WalletDropdown Sample.dark_wide Sample.closed.
Proof.
  intros H. vm_compute in H. discriminate H.
Qed.

(** C1 as stated fails: with the menu open, Copy address (and Block
    explorer) are taken and leave the anchor element in place. *)
Lemma not_every_action_closes_menu :
  ~ (forall (X : External) (props : Props) (w w' : World Sample.Node) (i : nat),
        menu_is_open w = true -> i < 3 ->
        Sample.step X props w (ClickMenuItem _ i) = Some w' ->
        anchorEl w' = None).
Proof.
  intros Hall.
  assert (H : anchorEl (mkWorld (Some 7) true Sample.connected
                          [CallCopy (Some Sample.address)])
              = @None Sample.Node).
  { apply (Hall Sample.all_succeed Sample.light Sample.opened _ 1).
    - reflexivity.
    - lia.
    - reflexivity. }
  discriminate H.
Qed.


(** Disconnect, clicked in the opened menu, closes it and clears the
    session. *)
Lemma only_disconnect_closes_menu_witness :
  Sample.step Sample.all_succeed Sample.light Sample.opened (ClickMenuItem _ 2)
  = Some (mkWorld None false Sample.disconnected [CallDisconnect])
  /\ menu_is_open Sample.opened = true
  /\ exists l, nth_error LABELS 2 = Some l
     /\ (l = "Disconnect" ->
         @None Sample.Node = None /\ false = false
         /\ menu_is_open (mkWorld (@None Sample.Node) false Sample.disconnected
                            [CallDisconnect]) = false)
     /\ (l = "Block explorer" \/ l = "Copy address" ->
         None = anchorEl Sample.opened
         /\ menu_is_open (mkWorld (@None Sample.Node) false Sample.disconnected
                            [CallDisconnect]) = true).
Proof.
  split; [reflexivity |]. split; [reflexivity |].
  exact (@only_disconnect_closes_menu Sample.Node Sample.theme
           Sample.CHAIN_ID_L1 Sample.EXPLORER_URL Sample.generateExploreLink
           Sample.truncateAddress Sample.all_succeed Sample.light
           Sample.opened _ 2 eq_refl eq_refl).
Defined.

(** C2, on the code.  [handleClose] resets the copied flag together with
    the anchor, but [copyAddress] sets the flag without looking at the
    menu, and the entries are still clickable while the closed menu fades
    out.  So the run: trigger click, request to close, click on Copy
    address, ends with a null anchor and the copied flag set; that state
    is reachable, and the invariant that a closed menu has its copied flag
    reset does not hold of the reachable states. *)
Theorem copy_while_closing_leaves_copied_set :
  Sample.step Sample.all_succeed Sample.light Sample.closed
    (ClickButtonBase _ 7) = Some Sample.opened
  /\ Sample.step Sample.all_succeed Sample.light Sample.opened (CloseMenu _)
     = Some Sample.closed
  /\ Sample.step Sample.all_succeed Sample.light Sample.closed
       (ClickMenuItem _ 1)
     = Some (mkWorld None true Sample.connected
               [CallCopy (Some Sample.address)])
  /\ menu_is_open (mkWorld (@None Sample.Node) true Sample.connected
                     [CallCopy (Some Sample.address)]) = false
  /\ Wallet.reachable Sample.Node Sample.theme Sample.CHAIN_ID_L1
       Sample.EXPLORER_URL Sample.generateExploreLink Sample.truncateAddress
       (mkWorld None true Sample.connected [CallCopy (Some Sample.address)])
  /\ ~ (forall w : World Sample.Node,
          Wallet.reachable Sample.Node Sample.theme Sample.CHAIN_ID_L1
            Sample.EXPLORER_URL Sample.generateExploreLink
            Sample.truncateAddress w ->
          anchorEl w = None -> copied w = false).
Proof.
  assert (Hreach :
            Wallet.reachable Sample.Node Sample.theme Sample.CHAIN_ID_L1
              Sample.EXPLORER_URL Sample.generateExploreLink
              Sample.truncateAddress
              (mkWorld None true Sample.connected
                 [CallCopy (Some Sample.address)])).
  { refine (reach_event _ _ _ _ _ _ Sample.all_succeed Sample.light
              Sample.closed _ (ClickMenuItem _ 1) _ eq_refl).
    refine (reach_event _ _ _ _ _ _ Sample.all_succeed Sample.light
              Sample.opened _ (CloseMenu _) _ eq_refl).
    refine (reach_event _ _ _ _ _ _ Sample.all_succeed Sample.light
              Sample.closed _ (ClickButtonBase _ 7) _ eq_refl).
    exact (reach_mount _ _ _ _ _ _ Sample.connected). }
  repeat split; try exact Hreach.
  intros Hinv. specialize (Hinv _ Hreach eq_refl). discriminate Hinv.
Qed.

(** The trigger, node 7, clicked while the menu is closed. *)
Lemma trigger_click_opens_one_menu_witness :
  menu_is_open Sample.opened = true
  /\ (forall props', open_menus _ (Sample.WalletDropdown props' Sample.opened) = 1).
Proof.
  pose proof (@trigger_click_opens_one_menu Sample.Node Sample.theme
                Sample.CHAIN_ID_L1 Sample.EXPLORER_URL
                Sample.generateExploreLink Sample.truncateAddress
                Sample.all_succeed Sample.light Sample.closed Sample.opened 7
                eq_refl eq_refl) as H.
  split; [exact (proj1 (proj2 H)) | exact (proj1 (proj2 (proj2 (proj2 H))))].
Defined.

(** Disconnect under a provider that clears the session, and Copy address
    under the same provider. *)
Lemma session_changes_only_through_provider_witness :
  (exists cs,
      [CallDisconnect] = ([] ++ cs)%list
      /\ Sample.disconnected
         = fold_left (fun r c => session_effect Sample.all_succeed c r) cs
             Sample.connected
      /\ (In CallConnect cs <-> ClickMenuItem Sample.Node 2 = ClickButton _)
      /\ (In CallDisconnect cs <-> ClickMenuItem Sample.Node 2 = ClickMenuItem _ 2))
  /\ (ClickMenuItem Sample.Node 2 <> ClickButton _ ->
      ClickMenuItem Sample.Node 2 <> ClickMenuItem _ 2 ->
      Sample.disconnected = Sample.connected).
Proof.
  exact (@session_changes_only_through_provider Sample.Node Sample.theme
           Sample.CHAIN_ID_L1 Sample.EXPLORER_URL Sample.generateExploreLink
           Sample.truncateAddress Sample.all_succeed Sample.light
           Sample.opened
           (mkWorld None false Sample.disconnected [CallDisconnect])
           (ClickMenuItem _ 2) eq_refl).
Defined.

(** Block explorer on the L1 chain. *)
Lemma block_explorer_link_by_chain_witness :
  exists key,
    [CallWindowOpen
       "https://etherscan.io/address/0x52908400098527886E0F7030069857D2E4169EE7"]
    = ([] ++
       [CallWindowOpen
          (Sample.generateExploreLink (Sample.EXPLORER_URL key)
             (Some Sample.address) "address")])%list
    /\ (key = "L1" <-> Some 1%Z = Some Sample.CHAIN_ID_L1)
    /\ (key = "L2" <-> Some 1%Z <> Some Sample.CHAIN_ID_L1)
    /\ (key = "L1" \/ key = "L2").
Proof.
  exact (@block_explorer_link_by_chain Sample.Node Sample.theme
           Sample.CHAIN_ID_L1 Sample.EXPLORER_URL Sample.generateExploreLink
           Sample.truncateAddress Sample.all_succeed Sample.light
           (mkWorld (Some 7) false Sample.on_l1 [])
           (mkWorld (Some 7) false Sample.on_l1
              [CallWindowOpen
                 "https://etherscan.io/address/0x52908400098527886E0F7030069857D2E4169EE7"])
           eq_refl).
Defined.

End WalletFacts.

(* ===================================================================== *)
(** ** Further facts about the wallet dropdown *)
(* ===================================================================== *)

Module WalletMore.
Import Wallet WalletView.

Section More.

Context {HTMLElement : Type}.
Context (theme : Theme) (CHAIN_ID_L1 : Z) (EXPLORER_URL : string -> string)
        (generateExploreLink : string -> option string -> string -> string)
        (truncateAddress : option string -> string).

Local Abbreviation render :=
  (WalletDropdown HTMLElement theme CHAIN_ID_L1 EXPLORER_URL
     generateExploreLink truncateAddress).
Local Abbreviation step :=
  (Wallet.step HTMLElement theme CHAIN_ID_L1 EXPLORER_URL
     generateExploreLink truncateAddress).
Local Abbreviation run :=
  (Wallet.run HTMLElement theme CHAIN_ID_L1 EXPLORER_URL
     generateExploreLink truncateAddress).
Local Abbreviation reachable :=
  (Wallet.reachable HTMLElement theme CHAIN_ID_L1 EXPLORER_URL
     generateExploreLink truncateAddress).
Local Abbreviation World := (Wallet.World HTMLElement).
Local Abbreviation Event := (Wallet.Event HTMLElement).

(** The world an event leaves behind, event by event. *)
Lemma step_cases X props (w w' : World) (ev : Event) :
  step X props w ev = Some w' ->
  (exists e, ev = ClickButtonBase _ e
             /\ truthy (chainId (rainbow w)) = true
             /\ w' = mkWorld (Some e) (copied w) (rainbow w) (calls w))
  \/ (ev = ClickButton _
      /\ truthy (chainId (rainbow w)) = false
      /\ w' = mkWorld (anchorEl w) (copied w) (ext_connect X (rainbow w))
                (calls w ++ [CallConnect]))
  \/ (ev = CloseMenu _
      /\ w' = mkWorld None false (rainbow w) (calls w))
  \/ (ev = ClickMenuItem _ 0
      /\ w' = mkWorld (anchorEl w) (copied w) (rainbow w)
                (calls w ++
                 [CallWindowOpen
                    (generateExploreLink
                       (EXPLORER_URL
                          (explorer_key CHAIN_ID_L1 (chainId (rainbow w))))
                       (walletCurrentAddress (rainbow w)) "address")]))
  \/ (ev = ClickMenuItem _ 1
      /\ w' = mkWorld (anchorEl w) true (rainbow w)
                (calls w ++ [CallCopy (walletCurrentAddress (rainbow w))]))
  \/ (ev = ClickMenuItem _ 2
      /\ w' = mkWorld None false (ext_disconnect X (rainbow w))
                (calls w ++ [CallDisconnect])).
Proof.
  destruct ev as [e | | | i]; intros Hstep.
  - rewrite WalletFacts.step_ClickButtonBase in Hstep.
    destruct (truthy _) eqn:Ht; [| discriminate Hstep].
    injection Hstep as <-. left. exists e. auto.
  - rewrite WalletFacts.step_ClickButton in Hstep.
    destruct (truthy _) eqn:Ht; [discriminate Hstep |].
    injection Hstep as <-. right; left. auto.
  - rewrite WalletFacts.step_CloseMenu in Hstep.
    injection Hstep as <-. right; right; left. auto.
  - apply WalletFacts.step_ClickMenuItem_inv in Hstep.
    destruct Hstep as [[-> ->] | [[-> ->] | [-> ->]]].
    + right; right; right; left. auto.
    + right; right; right; right; left. auto.
    + right; right; right; right; right. auto.
Qed.

Ltac by_event H :=
  apply step_cases in H;
  destruct H as [(? & -> & ? & ->)
                | [(-> & ? & ->)
                  | [(-> & ->)
                    | [(-> & ->) | [(-> & ->) | (-> & ->)]]]]].

(** X1. Which clicks the rendered tree takes: the trigger click exactly
    with a truthy chain id and the Connect Wallet click exactly with a
    falsy one, so always one of the two and never both; while the menu is
    open, the request to close and the clicks on the entries 0, 1 and 2;
    and in no state a click on a fourth entry. *)
Theorem event_taken_iff X props (w : World) :
  (forall e,
      (exists w', step X props w (ClickButtonBase _ e) = Some w')
      <-> truthy (chainId (rainbow w)) = true)
  /\ ((exists w', step X props w (ClickButton _) = Some w')
      <-> truthy (chainId (rainbow w)) = false)
  /\ (forall i, 3 <= i -> step X props w (ClickMenuItem _ i) = None)
  /\ (menu_is_open w = true ->
      (forall i, i < 3 ->
                 exists w', step X props w (ClickMenuItem _ i) = Some w')
      /\ exists w', step X props w (CloseMenu _) = Some w').
Proof.
  split; [| split; [| split]].
  - intros e. rewrite WalletFacts.step_ClickButtonBase.
    destruct (truthy _);
      (split; [intros [w' H]; try discriminate H; reflexivity
              | intros H; try discriminate H; eauto]).
  - rewrite WalletFacts.step_ClickButton.
    destruct (truthy _);
      (split; [intros [w' H]; try discriminate H; reflexivity
              | intros H; try discriminate H; eauto]).
  - intros i Hi. rewrite WalletFacts.step_ClickMenuItem.
    destruct i as [|[|[|i]]]; try lia. destruct i; reflexivity.
  - intros _. split.
    + intros i Hi. rewrite WalletFacts.step_ClickMenuItem.
      destruct i as [|[|[|i]]]; simpl; eauto. lia.
    + rewrite WalletFacts.step_CloseMenu. eauto.
Qed.

(** X2. The log of outgoing calls only grows, by exactly one call for
    each Connect Wallet or menu entry click of a run and by none for a
    trigger click or a request to close. *)
Theorem run_logs_one_call_per_action X props (evs : list Event) :
  forall w w' : World,
    run X props w evs = Some w' ->
    exists cs,
      calls w' = (calls w ++ cs)%list
      /\ length cs = length (filter (issues_call _) evs).
Proof.
  induction evs as [| ev rest IH]; intros w w' Hrun; simpl in Hrun.
  - injection Hrun as <-. exists []. rewrite app_nil_r. auto.
  - destruct (step X props w ev) as [w1 |] eqn:Hstep; [| discriminate Hrun].
    destruct (IH _ _ Hrun) as (cs & Hcs & Hlen).
    by_event Hstep; simpl in *;
      first [ exists cs; split; [exact Hcs | exact Hlen]
            | eexists (_ :: cs); split;
              [ rewrite Hcs, <- app_assoc; reflexivity
              | simpl; rewrite Hlen; reflexivity ] ].
Qed.

Lemma copied_implies_copy_logged (w : World) :
  reachable w -> copied w = true -> exists t, In (CallCopy t) (calls w).
Proof.
  induction 1 as [r | X props w w' ev Hr IH Hstep | r w Hr IH];
    simpl; intros Hc.
  - discriminate Hc.
  - by_event Hstep; simpl in *; try discriminate Hc;
      try (destruct (IH Hc) as [t Ht]; exists t;
           try apply in_or_app; auto).
    eexists. apply in_or_app. right. left. reflexivity.
  - exact (IH Hc).
Qed.

(** X3. The success icon is earned: in every reachable state where the
    open menu shows [CopySuccessSvg], the copied flag is set and [copy]
    has been called. *)
Theorem success_icon_only_after_copy props (w : World) :
  reachable w ->
  In CopySuccessSvg (shown_icons _ (render props w)) ->
  menu_is_open w = true
  /\ copied w = true
  /\ exists t, In (CallCopy t) (calls w).
Proof.
  intros Hr Hin.
  assert (Hoc : menu_is_open w = true /\ copied w = true).
  { revert Hin. unfold Wallet.WalletDropdown, shown_icons, menu_is_open.
    simpl.
    destruct (truthy (chainId (rainbow w))), (anchorEl w), (copied w);
      simpl; intuition discriminate. }
  destruct Hoc as [Ho Hc].
  repeat split; auto. apply copied_implies_copy_logged; assumption.
Qed.

Lemma step_agree X1 X2 props (w : World) (ev : Event) :
  (forall r, ext_connect X1 r = ext_connect X2 r) ->
  (forall r, ext_disconnect X1 r = ext_disconnect X2 r) ->
  step X1 props w ev = step X2 props w ev.
Proof.
  intros Hc Hd. destruct ev as [e | | | i].
  - rewrite !WalletFacts.step_ClickButtonBase. reflexivity.
  - rewrite !WalletFacts.step_ClickButton.
    destruct (truthy _); [reflexivity |].
    rewrite !WalletFacts.exec_connect, Hc. reflexivity.
  - rewrite !WalletFacts.step_CloseMenu. reflexivity.
  - rewrite !WalletFacts.step_ClickMenuItem.
    destruct i as [|[|[|i]]]; simpl; try reflexivity.
    + rewrite !WalletFacts.exec_disconnect_action, Hd. reflexivity.
    + destruct i; reflexivity.
Qed.

(** X4. Whether [copy] and [window.open] succeed never shows: two runs
    over the same events, against collaborators that treat the session
    alike, pass through the same worlds, whatever the clipboard and the
    popup blocker answer. *)
Theorem runs_blind_to_copy_and_popup X1 X2 props (evs : list Event) :
  (forall r, ext_connect X1 r = ext_connect X2 r) ->
  (forall r, ext_disconnect X1 r = ext_disconnect X2 r) ->
  forall w : World, run X1 props w evs = run X2 props w evs.
Proof.
  intros Hc Hd.
  induction evs as [| ev rest IH]; intros w; simpl.
  - reflexivity.
  - rewrite (step_agree X1 X2 props w ev Hc Hd).
    destruct (step X2 props w ev) as [w1 |]; [apply IH | reflexivity].
Qed.

(** X5. Opening the menu and dismissing it is a round trip: from a state
    with the menu closed and a truthy chain id, a trigger click followed
    by a request to close makes no call, leaves the session alone and ends
    with the menu closed and the copied flag reset; it gives back the very
    same world when the copied flag was not set. *)
Theorem open_then_dismiss_restores X props (w : World) e :
  anchorEl w = None ->
  truthy (chainId (rainbow w)) = true ->
  run X props w [ClickButtonBase _ e; CloseMenu _]
  = Some (mkWorld None false (rainbow w) (calls w))
  /\ (copied w = false ->
      run X props w [ClickButtonBase _ e; CloseMenu _] = Some w).
Proof.
  intros Ha Ht.
  assert (Hrun : run X props w [ClickButtonBase _ e; CloseMenu _]
                 = Some (mkWorld None false (rainbow w) (calls w))).
  { simpl. rewrite WalletFacts.step_ClickButtonBase, Ht.
    rewrite WalletFacts.step_CloseMenu. reflexivity. }
  split; [exact Hrun |].
  intros Hc. rewrite Hrun. f_equal.
  destruct w as [a c r cs]. simpl in *. subst. reflexivity.
Qed.

(** X6. An open menu outlives the session.  When the provider replaces
    the session, the menu stays open and its entries stay live whatever
    the new chain id, and they act on the new session: Copy address then
    calls [copy] with the new address, [undefined] included, and still
    sets the copied flag. *)
Theorem open_menu_survives_session_change X props (w : World) r :
  menu_is_open w = true ->
  open_menus _ (render props (provider_update r w)) = 1
  /\ step X props (provider_update r w) (ClickMenuItem _ 1)
     = Some (mkWorld (anchorEl w) true r
               (calls w ++ [CallCopy (walletCurrentAddress r)]))
  /\ step X props (provider_update r w) (CloseMenu _)
     = Some (mkWorld None false r (calls w)).
Proof.
  intros Ho. split; [| split].
  - unfold Wallet.WalletDropdown, open_menus, menu_is_open in *. simpl.
    destruct (truthy (chainId r)), (anchorEl w);
      try discriminate Ho; reflexivity.
  - rewrite WalletFacts.step_ClickMenuItem. reflexivity.
  - rewrite WalletFacts.step_CloseMenu. reflexivity.
Qed.

(** X7. After a disconnect that the provider honours (the chain id it
    leaves is falsy) the component is back at its entry point: the menu is
    closed, the copied flag reset, the first element rendered is the
    Connect Wallet button wired to [connect], whose click is taken, and
    the trigger is gone: no trigger click is taken any more. *)
Theorem after_disconnect_only_connect_remains X props (w w' : World) :
  step X props w (ClickMenuItem _ 2) = Some w' ->
  truthy (chainId (ext_disconnect X (rainbow w))) = false ->
  ui w' = (None, false)
  /\ hd_error (render props w')
     = Some (Button _ "contained" (connect _) "Connect Wallet")
  /\ open_menus _ (render props w') = 0
  /\ (forall X' props' e, step X' props' w' (ClickButtonBase _ e) = None)
  /\ (forall X' props',
         step X' props' w' (ClickButton _) = Some (exec (connect _) X' w')).
Proof.
  intros Hstep Hf.
  apply WalletFacts.step_ClickMenuItem_inv in Hstep.
  destruct Hstep as [[H _] | [[H _] | [_ ->]]]; try discriminate H.
  rewrite WalletFacts.exec_disconnect_action.
  split; [reflexivity |].
  split; [unfold Wallet.WalletDropdown; simpl; rewrite Hf; reflexivity |].
  split; [unfold Wallet.WalletDropdown, open_menus; simpl; rewrite Hf;
          reflexivity |].
  split.
  - intros X' props' e.
    rewrite WalletFacts.step_ClickButtonBase. simpl. rewrite Hf. reflexivity.
  - intros X' props'.
    rewrite WalletFacts.step_ClickButton. simpl. rewrite Hf. reflexivity.
Qed.

(** X8. The React keys of the menu entries are the three labels: pairwise
    distinct, and the same in every state and under all props. *)
Theorem item_keys_are_distinct props (w : World) :
  item_keys _ (render props w) = LABELS
  /\ NoDup (item_keys _ (render props w)).
Proof.
  assert (H : item_keys _ (render props w) = LABELS).
  { unfold Wallet.WalletDropdown. simpl.
    destruct (truthy (chainId (rainbow w))); reflexivity. }
  split; [exact H |]. rewrite H. unfold LABELS.
  repeat constructor; simpl; intuition discriminate.
Qed.

End More.

(** *** The statements at concrete inputs *)

(** Open, look at the explorer, copy, dismiss: two calls. *)
Lemma run_logs_one_call_per_action_witness :
  exists cs,
    [CallWindowOpen
       "https://scrollscan.com/address/0x52908400098527886E0F7030069857D2E4169EE7";
     CallCopy (Some Sample.address)]
    = ([] ++ cs)%list
    /\ length cs = 2.
Proof.
  exact (@run_logs_one_call_per_action Sample.Node Sample.theme
           Sample.CHAIN_ID_L1 Sample.EXPLORER_URL Sample.generateExploreLink
           Sample.truncateAddress Sample.all_succeed Sample.light
           [ClickButtonBase _ 7; ClickMenuItem _ 0; ClickMenuItem _ 1;
            CloseMenu _]
           Sample.closed
           (mkWorld None false Sample.connected
              [CallWindowOpen
                 "https://scrollscan.com/address/0x52908400098527886E0F7030069857D2E4169EE7";
               CallCopy (Some Sample.address)])
           eq_refl).
Defined.

(** How [copied_state] is reached. *)
Lemma copied_state_reachable :
  Wallet.reachable Sample.Node Sample.theme Sample.CHAIN_ID_L1
    Sample.EXPLORER_URL Sample.generateExploreLink Sample.truncateAddress
    copied_state.
Proof.
  refine (reach_event _ _ _ _ _ _ Sample.all_fail Sample.light
            Sample.opened _ (ClickMenuItem _ 1) _ eq_refl).
  refine (reach_event _ _ _ _ _ _ Sample.all_fail Sample.light
            Sample.closed _ (ClickButtonBase _ 7) _ eq_refl).
  exact (reach_mount _ _ _ _ _ _ Sample.connected).
Defined.

Lemma success_icon_only_after_copy_witness :
  menu_is_open copied_state = true
  /\ copied copied_state = true
  /\ exists t, In (CallCopy t) (calls copied_state).
Proof.
  apply (@success_icon_only_after_copy Sample.Node Sample.theme
           Sample.CHAIN_ID_L1 Sample.EXPLORER_URL Sample.generateExploreLink
           Sample.truncateAddress Sample.light copied_state).
  - exact copied_state_reachable.
  - simpl. right. left. reflexivity.
Defined.

(** The same clicks with the clipboard and the popup blocked. *)
Lemma runs_blind_to_copy_and_popup_witness :
  WalletView.run Sample.all_succeed Sample.light Sample.closed
    [ClickButtonBase _ 7; ClickMenuItem _ 0; ClickMenuItem _ 1]
  = WalletView.run WalletView.blocked Sample.light Sample.closed
      [ClickButtonBase _ 7; ClickMenuItem _ 0; ClickMenuItem _ 1].
Proof.
  apply (@runs_blind_to_copy_and_popup Sample.Node Sample.theme
           Sample.CHAIN_ID_L1 Sample.EXPLORER_URL Sample.generateExploreLink
           Sample.truncateAddress Sample.all_succeed WalletView.blocked
           Sample.light).
  - intros r. reflexivity.
  - intros r. reflexivity.
Defined.

Lemma open_then_dismiss_restores_witness :
  WalletView.run Sample.all_succeed Sample.light Sample.closed
    [ClickButtonBase _ 7; CloseMenu _]
  = Some (mkWorld None false Sample.connected [])
  /\ (copied Sample.closed = false ->
      WalletView.run Sample.all_succeed Sample.light Sample.closed
        [ClickButtonBase _ 7; CloseMenu _]
      = Some Sample.closed).
Proof.
  apply (@open_then_dismiss_restores Sample.Node Sample.theme
           Sample.CHAIN_ID_L1 Sample.EXPLORER_URL Sample.generateExploreLink
           Sample.truncateAddress Sample.all_succeed Sample.light
           Sample.closed 7).
  - reflexivity.
  - reflexivity.
Defined.

(** The session is lost while the menu is open. *)
Lemma open_menu_survives_session_change_witness :
  open_menus _ (Sample.WalletDropdown Sample.light
                  (provider_update Sample.disconnected Sample.opened)) = 1
  /\ Sample.step Sample.all_succeed Sample.light
       (provider_update Sample.disconnected Sample.opened) (ClickMenuItem _ 1)
     = Some (mkWorld (Some 7) true Sample.disconnected [CallCopy None])
  /\ Sample.step Sample.all_succeed Sample.light
       (provider_update Sample.disconnected Sample.opened) (CloseMenu _)
     = Some (mkWorld None false Sample.disconnected []).
Proof.
  exact (@open_menu_survives_session_change Sample.Node Sample.theme
           Sample.CHAIN_ID_L1 Sample.EXPLORER_URL Sample.generateExploreLink
           Sample.truncateAddress Sample.all_succeed Sample.light
           Sample.opened Sample.disconnected eq_refl).
Defined.

Lemma after_disconnect_only_connect_remains_witness :
  ui (mkWorld (@None Sample.Node) false Sample.disconnected [CallDisconnect])
  = (None, false)
  /\ hd_error (Sample.WalletDropdown Sample.light
                 (mkWorld None false Sample.disconnected [CallDisconnect]))
     = Some (Button _ "contained" (connect _) "Connect Wallet")
  /\ open_menus _ (Sample.WalletDropdown Sample.light
                     (mkWorld None false Sample.disconnected [CallDisconnect]))
     = 0
  /\ (forall X' props' e,
         Sample.step X' props'
           (mkWorld None false Sample.disconnected [CallDisconnect])
           (ClickButtonBase _ e)
         = None)
  /\ (forall X' props',
         Sample.step X' props'
           (mkWorld None false Sample.disconnected [CallDisconnect])
           (ClickButton _)
         = Some (exec (connect _) X'
                   (mkWorld None false Sample.disconnected [CallDisconnect]))).
Proof.
  exact (@after_disconnect_only_connect_remains Sample.Node Sample.theme
           Sample.CHAIN_ID_L1 Sample.EXPLORER_URL Sample.generateExploreLink
           Sample.truncateAddress Sample.all_succeed Sample.light
           Sample.opened
           (mkWorld None false Sample.disconnected [CallDisconnect])
           eq_refl eq_refl).
Defined.

End WalletMore.

(* ===================================================================== *)
(** ** Facts about the Tipper contract *)
(* ===================================================================== *)

Module TipperFacts.
Import Solidity Tipper.

Lemma UINT256_MAX_large : (1000 < UINT256_MAX)%Z.
Proof. reflexivity. Qed.

Lemma length_update (b : bytes) i v :
  List.length (update b i v) = List.length b.
Proof.
  revert i. induction b as [| x rest IH]; intros [| i]; simpl; auto.
Qed.

Lemma add_ok (a b : Z) :
  (a + b <= UINT256_MAX)%Z -> add a b = Ok (a + b)%Z.
Proof. intros H. unfold add. apply Z.leb_le in H. rewrite H. reflexivity. Qed.

Lemma mul_ok (a b : Z) :
  (a * b <= UINT256_MAX)%Z -> mul a b = Ok (a * b)%Z.
Proof. intros H. unfold mul. apply Z.leb_le in H. rewrite H. reflexivity. Qed.

Lemma add_overflow (a b : Z) :
  (UINT256_MAX < a + b)%Z -> add a b = Panic 17.
Proof. intros H. unfold add. apply Z.leb_gt in H. rewrite H. reflexivity. Qed.

Lemma sub_ok (a b : Z) : (b <= a)%Z -> sub a b = Ok (a - b)%Z.
Proof. intros H. unfold sub. apply Z.leb_le in H. rewrite H. reflexivity. Qed.

Lemma sub_underflow (a b : Z) : (a < b)%Z -> sub a b = Panic 17.
Proof. intros H. unfold sub. apply Z.leb_gt in H. rewrite H. reflexivity. Qed.

Lemma get_ok (b : bytes) (i : nat) :
  i < List.length b -> get b (Z.of_nat i) = Ok (nth i b Byte.x00).
Proof.
  intros H. unfold get.
  destruct (Z.ltb_spec (Z.of_nat i) 0) as [Hbad | _]; [lia |].
  rewrite Nat2Z.id.
  destruct (nth_error b i) as [x |] eqn:Hx.
  - rewrite (nth_error_nth _ _ _ Hx). reflexivity.
  - apply nth_error_None in Hx. lia.
Qed.

Lemma set_ok (b : bytes) (i : nat) v :
  i < List.length b -> set b (Z.of_nat i) v = Ok (update b i v).
Proof.
  intros H. unfold set, length.
  destruct (Z.leb_spec 0 (Z.of_nat i)) as [_ | Hbad]; [| lia].
  destruct (Z.ltb_spec (Z.of_nat i) (Z.of_nat (List.length b)))
    as [_ | Hbad]; [| lia].
  rewrite Nat2Z.id. reflexivity.
Qed.

(** A round whose source position exists copies that byte. *)
Lemma copy_byte_ok (proofCalldata lastBytes : bytes) (i : nat) :
  i < 20 ->
  1 + 32 * i <= List.length proofCalldata ->
  List.length lastBytes = 20 ->
  copy_byte proofCalldata lastBytes (Z.of_nat i)
  = Ok (update lastBytes (19 - i)
          (nth (List.length proofCalldata - 1 - 32 * i) proofCalldata Byte.x00)).
Proof.
  intros Hi Hlen Hlb. unfold copy_byte.
  pose proof UINT256_MAX_large as Hmax.
  rewrite mul_ok by lia. cbn [bind].
  rewrite add_ok by lia. cbn [bind].
  unfold length. rewrite sub_ok by lia. cbn [bind].
  replace (Z.of_nat (List.length proofCalldata) - (1 + Z.of_nat i * 32))%Z
    with (Z.of_nat (List.length proofCalldata - 1 - 32 * i)) by lia.
  rewrite get_ok by lia. cbn [bind].
  rewrite sub_ok by lia. cbn [bind].
  replace (20 - 1 - Z.of_nat i)%Z with (Z.of_nat (19 - i)) by lia.
  apply set_ok. lia.
Qed.

(** A round whose source position lies before the calldata underflows. *)
Lemma copy_byte_underflow (proofCalldata lastBytes : bytes) (i : nat) :
  i < 20 ->
  List.length proofCalldata < 1 + 32 * i ->
  copy_byte proofCalldata lastBytes (Z.of_nat i) = Panic 17.
Proof.
  intros Hi Hlen. unfold copy_byte.
  pose proof UINT256_MAX_large as Hmax.
  rewrite mul_ok by lia. cbn [bind].
  rewrite add_ok by lia. cbn [bind].
  unfold length. rewrite sub_underflow by lia. reflexivity.
Qed.

Lemma for_each_ok (proofCalldata : bytes) :
  609 <= List.length proofCalldata ->
  forall n a lastBytes,
    a + n = 20 ->
    List.length lastBytes = 20 ->
    for_each (map Z.of_nat (seq a n)) proofCalldata lastBytes
    = Ok (fold_left
            (fun acc i =>
               update acc (19 - i)
                 (nth (List.length proofCalldata - 1 - 32 * i)
                    proofCalldata Byte.x00))
            (seq a n) lastBytes).
Proof.
  intros Hlen n. induction n as [| n IH]; intros a lastBytes Han Hlb;
    cbn [seq map for_each fold_left].
  - reflexivity.
  - rewrite copy_byte_ok by lia. cbn [bind].
    apply IH; [lia | rewrite length_update; exact Hlb].
Qed.

Lemma for_each_underflow (proofCalldata : bytes) :
  List.length proofCalldata < 609 ->
  forall n a lastBytes,
    a + n = 20 -> 0 < n ->
    List.length lastBytes = 20 ->
    for_each (map Z.of_nat (seq a n)) proofCalldata lastBytes = Panic 17.
Proof.
  intros Hlen n. induction n as [| n IH]; intros a lastBytes Han Hn Hlb.
  - lia.
  - cbn [seq map for_each].
    destruct (Nat.le_gt_cases (1 + 32 * a) (List.length proofCalldata))
      as [Hfits | Hshort].
    + rewrite copy_byte_ok by lia. cbn [bind].
      destruct n as [| n]; [lia |].
      apply IH; [lia | lia | rewrite length_update; exact Hlb].
    + rewrite copy_byte_underflow by lia. reflexivity.
Qed.

(** The twenty writes fill the buffer back to front. *)
Lemma writes_fill_buffer (f : nat -> Byte.byte) :
  fold_left (fun acc i => update acc (19 - i) (f i)) (seq 0 20) (new_bytes 20)
  = map (fun j => f (19 - j)) (seq 0 20).
Proof. reflexivity. Qed.

Lemma be_value_from (b : bytes) (acc : Z) :
  fold_left (fun acc x => (acc * 256 + uint8 x)%Z) b acc
  = (acc * 256 ^ Z.of_nat (List.length b) + be_value b)%Z.
Proof.
  unfold be_value. revert acc.
  induction b as [| x rest IH]; intros acc.
  - simpl. lia.
  - cbn [fold_left List.length]. rewrite IH, (IH (0 * 256 + uint8 x)%Z).
    rewrite Nat2Z.inj_succ, Z.pow_succ_r by lia. ring.
Qed.

Lemma be_value_cons (x : Byte.byte) (b : bytes) :
  be_value (x :: b)
  = (uint8 x * 256 ^ Z.of_nat (List.length b) + be_value b)%Z.
Proof.
  unfold be_value at 1. cbn [fold_left]. rewrite be_value_from. ring.
Qed.

Lemma uint8_range (x : Byte.byte) : (0 <= uint8 x < 256)%Z.
Proof.
  unfold uint8. pose proof (Byte.to_N_bounded x). lia.
Qed.

Lemma be_value_range (b : bytes) :
  (0 <= be_value b < 256 ^ Z.of_nat (List.length b))%Z.
Proof.
  induction b as [| x rest IH].
  - unfold be_value. simpl. lia.
  - rewrite be_value_cons. cbn [List.length].
    rewrite Nat2Z.inj_succ, Z.pow_succ_r by lia.
    pose proof (uint8_range x). nia.
Qed.

Lemma bytes20_of_20 (b : bytes) : List.length b = 20 -> bytes20 b = b.
Proof.
  intros H. unfold bytes20. rewrite firstn_app.
  rewrite firstn_all2 by lia.
  replace (20 - List.length b) with 0 by lia.
  cbn [firstn]. apply app_nil_r.
Qed.

(** What the function returns on a calldata that is long enough. *)
Lemma extract_ok (proofCalldata : bytes) :
  609 <= List.length proofCalldata ->
  extractTipRecipientFromProof proofCalldata
  = Ok (be_value (map (fun p => nth p proofCalldata Byte.x00)
                    (read_positions (List.length proofCalldata)))).
Proof.
  intros Hlen. unfold extractTipRecipientFromProof.
  rewrite (for_each_ok _ Hlen 20 0) by reflexivity.
  rewrite (writes_fill_buffer
             (fun i => nth (List.length proofCalldata - 1 - 32 * i)
                         proofCalldata Byte.x00)).
  cbn [bind]. unfold address. rewrite bytes20_of_20 by reflexivity.
  unfold read_positions. rewrite map_map. reflexivity.
Qed.

Lemma extract_short (proofCalldata : bytes) :
  List.length proofCalldata < 609 ->
  extractTipRecipientFromProof proofCalldata = Panic 17.
Proof.
  intros Hlen. unfold extractTipRecipientFromProof.
  rewrite (for_each_underflow _ Hlen 20 0) by (reflexivity || lia).
  reflexivity.
Qed.

(** X9. [extractTipRecipientFromProof] returns exactly on calldata of at
    least 609 bytes (19 words and one byte); on anything shorter it ends
    in the arithmetic panic of [length - (1 + i*32)], never in an index
    panic and never with a garbage address. *)
Theorem extract_returns_iff_609_bytes (proofCalldata : bytes) :
  ((exists a, extractTipRecipientFromProof proofCalldata = Ok a)
   <-> 609 <= List.length proofCalldata)
  /\ (extractTipRecipientFromProof proofCalldata = Panic 17
      <-> List.length proofCalldata < 609).
Proof.
  destruct (Nat.le_gt_cases 609 (List.length proofCalldata)) as [Hl | Hs].
  - rewrite (extract_ok _ Hl). split; split; intros H;
      try eauto; try discriminate H; lia.
  - rewrite (extract_short _ Hs). split; split; intros H;
      try reflexivity; try assumption; try lia.
    destruct H as [a H]. discriminate H.
Qed.

(** X10. The address returned is the big-endian number of twenty calldata
    bytes: the last byte of each of the last twenty 32-byte words, first
    word first; it always fits 160 bits. *)
Theorem extract_reads_last_byte_of_last_20_words (proofCalldata : bytes) a :
  extractTipRecipientFromProof proofCalldata = Ok a ->
  a = be_value (map (fun p => nth p proofCalldata Byte.x00)
                  (read_positions (List.length proofCalldata)))
  /\ (0 <= a < 2 ^ 160)%Z
  /\ Forall (fun p => p < List.length proofCalldata
                      /\ (List.length proofCalldata - 1 - p) mod 32 = 0)
       (read_positions (List.length proofCalldata)).
Proof.
  intros H.
  destruct (Nat.le_gt_cases 609 (List.length proofCalldata)) as [Hl | Hs];
    [| rewrite (extract_short _ Hs) in H; discriminate H].
  rewrite (extract_ok _ Hl) in H. injection H as <-.
  split; [reflexivity |]. split.
  - pose proof (be_value_range
                  (map (fun p => nth p proofCalldata Byte.x00)
                     (read_positions (List.length proofCalldata)))) as Hr.
    unfold read_positions in Hr. rewrite !length_map, length_seq in Hr.
    change (256 ^ Z.of_nat 20)%Z with (2 ^ 160)%Z in Hr. exact Hr.
  - unfold read_positions. apply Forall_forall. intros p Hp.
    apply in_map_iff in Hp. destruct Hp as (j & <- & Hj).
    apply in_seq in Hj. split; [lia |].
    replace (List.length proofCalldata - 1
             - (List.length proofCalldata - 1 - 32 * (19 - j)))
      with ((19 - j) * 32) by lia.
    apply Nat.Div0.mod_mul.
Qed.

Lemma length_concat_words (words : list bytes) :
  Forall (fun w => List.length w = 32) words ->
  List.length (concat words) = 32 * List.length words.
Proof.
  induction 1 as [| w rest Hw Hrest IH]; [reflexivity |].
  cbn [concat List.length]. rewrite length_app, Hw, IH. lia.
Qed.

Lemma nth_concat_words (words : list bytes) (d : Byte.byte) :
  Forall (fun w => List.length w = 32) words ->
  forall j k,
    k < 32 ->
    nth (32 * j + k) (concat words) d = nth k (nth j words []) d.
Proof.
  induction 1 as [| w rest Hw Hrest IH]; intros j k Hk.
  - destruct j, k; reflexivity.
  - destruct j as [| j]; cbn [concat nth].
    + rewrite Nat.mul_0_r, Nat.add_0_l. apply app_nth1. lia.
    + replace (32 * S j + k) with (List.length w + (32 * j + k)) by lia.
      rewrite app_nth2_plus. apply IH. exact Hk.
Qed.

Lemma map_nth_seq {A B : Type} (g : A -> B) (d : A) (l : list A) :
  map (fun j => g (nth j l d)) (seq 0 (List.length l)) = map g l.
Proof.
  induction l as [| x rest IH]; [reflexivity |].
  cbn [List.length seq map nth]. f_equal.
  rewrite <- seq_shift, map_map. exact IH.
Qed.

(** On a calldata that ends in twenty words, the positions read are the
    last bytes of those words. *)
Lemma read_positions_of_words (prefix : bytes) (words : list bytes) :
  List.length words = 20 ->
  Forall (fun w => List.length w = 32) words ->
  map (fun p => nth p (prefix ++ concat words)%list Byte.x00)
    (read_positions (List.length (prefix ++ concat words)%list))
  = map (fun w => nth 31 w Byte.x00) words.
Proof.
  intros H20 H32.
  pose proof (length_concat_words words H32) as Hcat.
  transitivity (map (fun j => nth 31 (nth j words []) Byte.x00) (seq 0 20));
    [| replace (seq 0 20) with (seq 0 (List.length words))
         by (f_equal; exact H20);
       exact (map_nth_seq (fun w => nth 31 w Byte.x00) [] words)].
  unfold read_positions. rewrite map_map.
  apply map_ext_in. intros j Hj. apply in_seq in Hj.
  rewrite length_app, Hcat, H20.
  replace (List.length prefix + 32 * 20 - 1 - 32 * (19 - j))
    with (List.length prefix + (32 * j + 31)) by lia.
  rewrite app_nth2_plus. apply nth_concat_words; [exact H32 | lia].
Qed.

(** X11. Only the last byte of each of the last twenty words counts: on a
    calldata that ends in twenty 32-byte words, whatever comes before
    them and whatever the other 31 bytes of each word are, the recipient
    is the number spelled by the twenty last bytes. *)
Theorem extract_from_instance_words (prefix : bytes) (words : list bytes) :
  List.length words = 20 ->
  Forall (fun w => List.length w = 32) words ->
  extractTipRecipientFromProof (prefix ++ concat words)%list
  = Ok (be_value (map (fun w => nth 31 w Byte.x00) words)).
Proof.
  intros H20 H32.
  pose proof (length_concat_words words H32) as Hcat.
  rewrite extract_ok by (rewrite length_app; lia).
  rewrite (read_positions_of_words prefix words H20 H32). reflexivity.
Qed.

Lemma proof_accepted_spec (success : bool) (data : bytes) :
  proof_accepted success data
  = Ok (success
        && (List.length data =? 32)%nat
        && (uint8 (nth 31 data Byte.x00) =? 1)%Z).
Proof.
  unfold proof_accepted, length.
  destruct success; [| reflexivity]. cbn [andb].
  destruct (Nat.eqb_spec (List.length data) 32) as [H32 | Hne].
  - rewrite H32. change (Z.of_nat 32 =? 32)%Z with true. cbv iota.
    change 31%Z with (Z.of_nat 31).
    rewrite get_ok by lia. reflexivity.
  - destruct (Z.eqb_spec (Z.of_nat (List.length data)) 32) as [Hbad | _];
      [lia | reflexivity].
Qed.

(** X12. [verifyAndSendTip] succeeds exactly when the verifier call
    succeeded and returned 32 bytes of which the last is 1 (the other 31
    are not looked at), the calldata has the 609 bytes the recipient is
    read from, and the token's [transfer] did not revert.  Then it has
    asked for one transfer of 1000 tokens (10^21 base units) to the
    extracted recipient; the boolean [transfer] returns is not checked, so
    a [false] still counts as success.  When the verifier's answer is not
    accepted the call reverts with "Could not verify proof". *)
Theorem verifyAndSendTip_outcomes (C : Callees) (proofCalldata : bytes) :
  let success := fst (verifier_call C proofCalldata) in
  let data := snd (verifier_call C proofCalldata) in
  let accepted :=
    success && (List.length data =? 32)%nat
    && (uint8 (nth 31 data Byte.x00) =? 1)%Z in
  (forall t,
      verifyAndSendTip C proofCalldata = Ok t
      <-> accepted = true
          /\ 609 <= List.length proofCalldata
          /\ extractTipRecipientFromProof proofCalldata = Ok (transfer_to t)
          /\ transfer_value t = (10 ^ 21)%Z
          /\ token_transfer C (transfer_to t) (10 ^ 21)%Z
             = Ok (transfer_returned t))
  /\ (accepted = false ->
      verifyAndSendTip C proofCalldata = Revert "Could not verify proof").
Proof.
  intros success data accepted.
  unfold verifyAndSendTip.
  destruct (verifier_call C proofCalldata) as [s d] eqn:Hcall.
  assert (Hacc : proof_accepted s d = Ok accepted).
  { rewrite proof_accepted_spec. subst accepted success data.
    reflexivity. }
  rewrite Hacc. cbn [bind].
  change (1000 * ether)%Z with (10 ^ 21)%Z.
  split.
  - intros t. destruct accepted.
    + destruct (extractTipRecipientFromProof proofCalldata)
        as [a | reason | code] eqn:Hex; cbn [bind].
      * assert (Hl : 609 <= List.length proofCalldata).
        { destruct (Nat.le_gt_cases 609 (List.length proofCalldata))
            as [Hl | Hs]; [exact Hl |].
          rewrite (extract_short _ Hs) in Hex. discriminate Hex. }
        destruct (token_transfer C a (10 ^ 21)%Z) as [r | reason | code]
          eqn:Htr; cbn [bind]; split.
        -- intros H. injection H as <-.
           cbn [transfer_to transfer_value transfer_returned]. auto.
        -- intros (_ & _ & Hto & Hv & Hret).
           destruct t as [to v r'].
           cbn [transfer_to transfer_value transfer_returned] in *.
           assert (Ha : a = to) by congruence. subst to v.
           rewrite Htr in Hret. congruence.
        -- intros H. discriminate H.
        -- intros (_ & _ & Hto & _ & Hret).
           assert (Ha : a = transfer_to t) by congruence.
           rewrite <- Ha, Htr in Hret. discriminate Hret.
        -- intros H. discriminate H.
        -- intros (_ & _ & Hto & _ & Hret).
           assert (Ha : a = transfer_to t) by congruence.
           rewrite <- Ha, Htr in Hret. discriminate Hret.
      * split; [intros H; discriminate H
               | intros (_ & _ & Hto & _); discriminate Hto].
      * split; [intros H; discriminate H
               | intros (_ & _ & Hto & _); discriminate Hto].
    + split; [intros H; discriminate H | intros (H & _); discriminate H].
  - intros ->. reflexivity.
Qed.

(** *** The statements at a concrete calldata *)

Lemma extract_reads_last_byte_of_last_20_words_witness :
  Z.of_N TipSample.recipient
  = be_value (map (fun p => nth p TipSample.calldata Byte.x00)
                (read_positions (List.length TipSample.calldata)))
  /\ (0 <= Z.of_N TipSample.recipient < 2 ^ 160)%Z
  /\ Forall (fun p => p < List.length TipSample.calldata
                      /\ (List.length TipSample.calldata - 1 - p) mod 32 = 0)
       (read_positions (List.length TipSample.calldata)).
Proof.
  apply (extract_reads_last_byte_of_last_20_words TipSample.calldata
           (Z.of_N TipSample.recipient)).
  vm_compute. reflexivity.
Defined.

Lemma extract_from_instance_words_witness :
  extractTipRecipientFromProof
    ([Byte.x1e; Byte.x8e; Byte.x1e; Byte.x13]
     ++ concat TipSample.instance_words)%list
  = Ok (be_value (map (fun w => nth 31 w Byte.x00) TipSample.instance_words)).
Proof.
  apply (extract_from_instance_words
           [Byte.x1e; Byte.x8e; Byte.x1e; Byte.x13] TipSample.instance_words).
  - reflexivity.
  - repeat constructor.
Defined.

End TipperFacts.

(* ===================================================================== *)
(** ** Facts about the notebook cell, and the address's way to the tip *)
(* ===================================================================== *)

Module ColabFacts.
Import Colab.

Local Open Scope N_scope.

Lemma below_16_cases (d : N) :
  d < 16 ->
  d = 0 \/ d = 1 \/ d = 2 \/ d = 3 \/ d = 4 \/ d = 5 \/ d = 6 \/ d = 7
  \/ d = 8 \/ d = 9 \/ d = 10 \/ d = 11 \/ d = 12 \/ d = 13 \/ d = 14
  \/ d = 15.
Proof. lia. Qed.

(** Reading a written digit gives the digit back. *)
Lemma digit_of_hex_digit (d : N) :
  d < 16 -> HexString.ascii_to_digit (hex_digit d) = Some d.
Proof.
  intros H. apply below_16_cases in H.
  repeat (destruct H as [-> | H]; [reflexivity |]). subst d. reflexivity.
Qed.

Lemma int16_one_digit (a : N) :
  a < 16 -> int16 (String (hex_digit a) EmptyString) = Some a.
Proof.
  intros Ha. unfold int16. cbn [int16_from].
  rewrite (digit_of_hex_digit a Ha). reflexivity.
Qed.

Lemma int16_two_digits (a b : N) :
  a < 16 -> b < 16 ->
  int16 (String (hex_digit a) (String (hex_digit b) EmptyString))
  = Some (a * 16 + b).
Proof.
  intros Ha Hb. unfold int16. cbn [int16_from].
  rewrite (digit_of_hex_digit a Ha), (digit_of_hex_digit b Hb).
  cbn [int16_from]. f_equal.
Qed.

Lemma range2_step (n : nat) :
  range2 (S (S n)) = 0%nat :: map (fun i => S (S i)) (range2 n).
Proof.
  unfold range2. cbn [Nat.div2 seq map]. f_equal.
  rewrite <- seq_shift, !map_map. apply map_ext. intros k. lia.
Qed.

(** The comprehension, one chunk at a time. *)
Lemma pairs_to_ints_two (a b : ascii) (s : string) :
  pairs_to_ints (String a (String b s))
  = match int16 (String a (String b EmptyString)) with
    | Some x =>
        match pairs_to_ints s with
        | Some xs => Some (x :: xs)
        | None => None
        end
    | None => None
    end.
Proof.
  unfold pairs_to_ints. cbn [String.length]. rewrite range2_step.
  cbn [map all_or_raise]. rewrite map_map.
  assert (H0 : substring 0 2 (String a (String b s))
               = String a (String b EmptyString)).
  { cbn [substring]. destruct s; reflexivity. }
  rewrite H0.
  destruct (int16 (String a (String b EmptyString))); reflexivity.
Qed.

Lemma pairs_to_ints_one (a : ascii) :
  pairs_to_ints (String a EmptyString)
  = match int16 (String a EmptyString) with
    | Some x => Some [x]
    | None => None
    end.
Proof. reflexivity. Qed.

Lemma pow16_double (m : nat) : 16 ^ N.of_nat (2 * m) = 256 ^ N.of_nat m.
Proof.
  replace (N.of_nat (2 * m)) with (2 * N.of_nat m) by lia.
  rewrite N.pow_mul_r. reflexivity.
Qed.

(** Two neighbouring hexadecimal digits make one base-256 digit. *)
Lemma two_digits_one_byte (n : N) (m : nat) :
  (n / 16 ^ N.of_nat (S (2 * m))) mod 16 * 16 + (n / 16 ^ N.of_nat (2 * m)) mod 16
  = (n / 256 ^ N.of_nat m) mod 256.
Proof.
  replace (N.of_nat (S (2 * m))) with (N.succ (N.of_nat (2 * m))) by lia.
  rewrite N.pow_succ_r', pow16_double.
  assert (Hp : 256 ^ N.of_nat m <> 0) by (apply N.pow_nonzero; discriminate).
  rewrite (N.mul_comm 16), <- N.Div0.div_div.
  set (q := n / 256 ^ N.of_nat m).
  change (q mod 256) with (q mod (16 * 16)).
  rewrite N.Div0.mod_mul_r. lia.
Qed.

Lemma hex_fixed_pairs (n : N) (m : nat) :
  pairs_to_ints (hex_fixed (2 * m) n) = Some (base256 m n).
Proof.
  induction m as [| m IH]; [reflexivity |].
  replace (2 * S m)%nat with (S (S (2 * m))) by lia.
  cbn [hex_fixed base256].
  rewrite pairs_to_ints_two, int16_two_digits
    by (apply N.mod_lt; discriminate).
  rewrite IH, two_digits_one_byte. reflexivity.
Qed.

Lemma length_base256 (m : nat) (n : N) : List.length (base256 m n) = m.
Proof. induction m as [| m IH]; cbn [base256 List.length]; auto. Qed.

Lemma base256_bytes (m : nat) (n : N) : Forall (fun x => x < 256) (base256 m n).
Proof.
  induction m as [| m IH]; cbn [base256]; constructor; auto.
  apply N.mod_lt. discriminate.
Qed.

Lemma be_number_from (l : list N) (acc : N) :
  fold_left (fun acc x => acc * 256 + x) l acc
  = acc * 256 ^ N.of_nat (List.length l) + be_number l.
Proof.
  unfold be_number. revert acc.
  induction l as [| x rest IH]; intros acc.
  - cbn. lia.
  - cbn [fold_left List.length]. rewrite IH, (IH (0 * 256 + x)).
    replace (N.of_nat (S (List.length rest)))
      with (N.succ (N.of_nat (List.length rest))) by lia.
    rewrite N.pow_succ_r'. lia.
Qed.

Lemma be_number_base256 (m : nat) (n : N) :
  be_number (base256 m n) = n mod 256 ^ N.of_nat m.
Proof.
  induction m as [| m IH].
  - cbn. rewrite N.mod_1_r. reflexivity.
  - cbn [base256]. unfold be_number. cbn [fold_left].
    rewrite be_number_from, length_base256, IH.
    replace (N.of_nat (S m)) with (N.succ (N.of_nat m)) by lia.
    rewrite N.pow_succ_r', (N.mul_comm 256).
    rewrite N.Div0.mod_mul_r. lia.
Qed.

Lemma hex_len_address (n : N) : n < 2 ^ 160 -> (hex_len n <= 40)%nat.
Proof.
  intros H. destruct n as [| p]; [cbn; lia |].
  unfold hex_len.
  assert (Hlog : N.log2 (N.pos p) < 160) by (apply N.log2_lt_pow2; lia).
  assert (Hq : N.log2 (N.pos p) / 4 < 40)
    by (apply N.Div0.div_lt_upper_bound; lia).
  lia.
Qed.

Lemma hex_len_beyond (n : N) : 2 ^ 160 <= n -> (41 <= hex_len n)%nat.
Proof.
  intros H. destruct n as [| p]; [cbn in H; lia |].
  unfold hex_len.
  assert (Hlog : 160 <= N.log2 (N.pos p)) by (apply N.log2_le_pow2; lia).
  assert (Hq : 40 <= N.log2 (N.pos p) / 4)
    by (apply N.div_le_lower_bound; lia).
  lia.
Qed.

Lemma tensor_of_address (address : N) :
  address < 2 ^ 160 ->
  address_to_byte_tensor address = Some (base256 20 address).
Proof.
  intros H. unfold address_to_byte_tensor, format_040x.
  rewrite (Nat.max_l 40 (hex_len address)) by (apply hex_len_address; exact H).
  exact (hex_fixed_pairs address 20).
Qed.

Lemma base256_20_spells (address : N) :
  address < 2 ^ 160 -> be_number (base256 20 address) = address.
Proof.
  intros H. rewrite be_number_base256. apply N.mod_small.
  change (256 ^ N.of_nat 20) with (2 ^ 160). exact H.
Qed.

(** X13. For an address of at most 160 bits, [address_to_byte_tensor]
    returns its twenty bytes, most significant first: twenty entries, each
    below 256, that spell the address back. *)
Theorem tensor_spells_the_address (address : N) :
  address < 2 ^ 160 ->
  exists t,
    address_to_byte_tensor address = Some t
    /\ List.length t = 20%nat
    /\ Forall (fun x => x < 256) t
    /\ be_number t = address.
Proof.
  intros H. exists (base256 20 address).
  split; [exact (tensor_of_address address H) |].
  split; [apply length_base256 |].
  split; [apply base256_bytes | exact (base256_20_spells address H)].
Qed.

(** Every width parses, the odd ones ending in a one-digit chunk. *)
Lemma hex_fixed_parses (n : N) (w : nat) :
  (exists t, pairs_to_ints (hex_fixed w n) = Some t
             /\ List.length t = Nat.div2 (S w))
  /\ (exists t, pairs_to_ints (hex_fixed (S w) n) = Some t
                /\ List.length t = Nat.div2 (S (S w))).
Proof.
  induction w as [| w [IH0 IH1]].
  - split; [exists []; split; reflexivity |].
    cbn [hex_fixed]. rewrite pairs_to_ints_one, int16_one_digit
      by (apply N.mod_lt; discriminate).
    eexists. split; reflexivity.
  - split; [exact IH1 |].
    destruct IH0 as (t & Ht & Hlen).
    cbn [hex_fixed]. rewrite pairs_to_ints_two, int16_two_digits
      by (apply N.mod_lt; discriminate).
    cbn [hex_fixed] in Ht. rewrite Ht.
    eexists. split; [reflexivity |].
    cbn [List.length]. rewrite Hlen. reflexivity.
Qed.

(** X14. [address_to_byte_tensor] never raises on a non-negative integer
    and never cuts one down: an integer of more than 160 bits comes back
    as a tensor of more than twenty entries. *)
Theorem tensor_never_raises_nor_truncates (address : N) :
  exists t,
    address_to_byte_tensor address = Some t
    /\ List.length t = Nat.div2 (S (Nat.max 40 (hex_len address)))
    /\ (20 <= List.length t)%nat
    /\ (2 ^ 160 <= address -> (20 < List.length t)%nat).
Proof.
  unfold address_to_byte_tensor, format_040x.
  destruct (proj1 (hex_fixed_parses address (Nat.max 40 (hex_len address))))
    as (t & Ht & Hlen).
  exists t. split; [exact Ht |]. split; [exact Hlen |].
  rewrite Hlen, Nat.div2_div. split.
  - apply (Nat.div_le_lower_bound _ 2 20); lia.
  - intros Hbig. apply hex_len_beyond in Hbig.
    apply (Nat.div_le_lower_bound _ 2 21); lia.
Qed.

(** *** The statements at the address of the article *)

Lemma tensor_spells_the_address_witness :
  exists t,
    address_to_byte_tensor TipSample.recipient = Some t
    /\ List.length t = 20%nat
    /\ Forall (fun x => x < 256) t
    /\ be_number t = TipSample.recipient.
Proof.
  apply (tensor_spells_the_address TipSample.recipient). reflexivity.
Defined.

End ColabFacts.

Module TipFlow.
Import Solidity Tipper Colab.

Lemma be_value_of_numbers (bs : bytes) (t : list N) :
  Forall2 (fun x v => uint8 x = Z.of_N v) bs t ->
  forall (accZ : Z) (accN : N),
    accZ = Z.of_N accN ->
    fold_left (fun acc x => (acc * 256 + uint8 x)%Z) bs accZ
    = Z.of_N (fold_left (fun acc v => (acc * 256 + v)%N) t accN).
Proof.
  induction 1 as [| x v bs t Hxv Hrest IH]; intros accZ accN Hacc.
  - exact Hacc.
  - cbn [fold_left]. apply IH. rewrite Hacc, Hxv. lia.
Qed.

Lemma last_bytes_of_words (words : list bytes) (t : list N) :
  Forall2 (fun w v => List.length w = 32
                      /\ uint8 (nth 31 w Byte.x00) = Z.of_N v) words t ->
  Forall (fun w => List.length w = 32) words
  /\ Forall2 (fun x v => uint8 x = Z.of_N v)
       (map (fun w => nth 31 w Byte.x00) words) t.
Proof.
  induction 1 as [| w v words t [Hlen Hv] Hrest [IH1 IH2]].
  - split; constructor.
  - split; cbn [map]; constructor; assumption.
Qed.

(** X15. The address fed to the notebook is the address tipped.  When an
    address of at most 160 bits is turned into its tensor and the calldata
    ends in one 32-byte word per tensor entry, each carrying its entry in
    its last byte, [extractTipRecipientFromProof] returns that address,
    whatever precedes those words and whatever fills their other bytes. *)
Theorem tensor_address_is_tip_recipient
    (address : N) (t : list N) (prefix : bytes) (words : list bytes) :
  (address < 2 ^ 160)%N ->
  address_to_byte_tensor address = Some t ->
  Forall2 (fun w v => List.length w = 32
                      /\ uint8 (nth 31 w Byte.x00) = Z.of_N v) words t ->
  extractTipRecipientFromProof (prefix ++ concat words)%list
  = Ok (Z.of_N address).
Proof.
  intros Haddr Ht Hwords.
  assert (Heq : t = base256 20 address).
  { rewrite (ColabFacts.tensor_of_address address Haddr) in Ht.
    congruence. }
  subst t.
  pose proof (Forall2_length Hwords) as Hlen.
  rewrite ColabFacts.length_base256 in Hlen.
  destruct (last_bytes_of_words _ _ Hwords) as [H32 Hlast].
  pose proof (TipperFacts.length_concat_words words H32) as Hcat.
  assert (Hlong : 609 <= List.length (prefix ++ concat words)%list).
  { unfold bytes in *. rewrite length_app, Hcat, Hlen. clear. lia. }
  rewrite (TipperFacts.extract_ok _ Hlong).
  rewrite (TipperFacts.read_positions_of_words prefix words Hlen H32).
  f_equal. unfold be_value.
  rewrite (be_value_of_numbers _ _ Hlast 0%Z 0%N eq_refl).
  f_equal. exact (ColabFacts.base256_20_spells address Haddr).
Qed.

Lemma tensor_address_is_tip_recipient_witness :
  extractTipRecipientFromProof
    ([Byte.x1e; Byte.x8e; Byte.x1e; Byte.x13]
     ++ concat TipSample.instance_words)%list
  = Ok (Z.of_N TipSample.recipient).
Proof.
  apply (tensor_address_is_tip_recipient TipSample.recipient
           [112; 126; 85; 161; 37; 87; 232; 153; 21; 209;
            33; 147; 47; 131; 222; 238; 240; 158; 93; 112]%N).
  - reflexivity.
  - vm_compute. reflexivity.
  - repeat constructor.
Defined.

End TipFlow.

(* ===================================================================== *)
(** ** Facts about the L1SLOAD reader contracts *)
(* ===================================================================== *)

Module L1SloadFacts.
Import Solidity L1Sload.

Section Readers.

Variable keccak256 : list Z -> Z.
Variable staticcall : Z -> list Z -> bool * list Z.

Local Open Scope Z_scope.

Lemma add_in_range (x y : Z) : x + y <= UINT256_MAX -> add x y = Ok (x + y).
Proof. intros H. unfold add. apply Z.leb_le in H. rewrite H. reflexivity. Qed.

Lemma add_out_of_range (x y : Z) : UINT256_MAX < x + y -> add x y = Panic 17.
Proof. intros H. unfold add. apply Z.leb_gt in H. rewrite H. reflexivity. Qed.

Lemma UINT256_MAX_over_104 : 104 <= UINT256_MAX.
Proof. discriminate. Qed.

(** Two [uint104] side by side in one word, and anything above them. *)
Lemma unpack_low (lo hi top : Z) :
  0 <= lo < 2 ^ 104 -> 0 <= hi < 2 ^ 104 -> 0 <= top ->
  uint104 (Z.shiftr (lo + hi * 2 ^ 104 + top * 2 ^ 208) 0) = lo.
Proof.
  intros Hlo Hhi Htop. unfold uint104. rewrite Z.shiftr_0_r.
  replace (lo + hi * 2 ^ 104 + top * 2 ^ 208)
    with (lo + (hi + top * 2 ^ 104) * 2 ^ 104)
    by (change (2 ^ 208) with (2 ^ 104 * 2 ^ 104); ring).
  rewrite Z.mod_add by lia. apply Z.mod_small. exact Hlo.
Qed.

Lemma unpack_high (lo hi top : Z) :
  0 <= lo < 2 ^ 104 -> 0 <= hi < 2 ^ 104 -> 0 <= top ->
  uint104 (Z.shiftr (lo + hi * 2 ^ 104 + top * 2 ^ 208) 104) = hi.
Proof.
  intros Hlo Hhi Htop. unfold uint104.
  rewrite Z.shiftr_div_pow2 by lia.
  replace (lo + hi * 2 ^ 104 + top * 2 ^ 208)
    with (lo + (hi + top * 2 ^ 104) * 2 ^ 104)
    by (change (2 ^ 208) with (2 ^ 104 * 2 ^ 104); ring).
  rewrite Z.div_add by lia. rewrite (Z.div_small lo) by lia.
  rewrite Z.add_0_l, Z.mod_add by lia. apply Z.mod_small. exact Hhi.
Qed.

(** X16. [L2Uint104ArrayDemo.retrieveArrayElement] undoes the packing of
    a [uint104[]]: for an index within the stored length it reads the
    word at [keccak256(slot) + index / 2] and returns its low 104 bits for
    an even index and the next 104 bits for an odd one, whatever the top
    48 bits of the word hold. *)
Theorem retrieveArrayElement104_unpacks
    (contractAddress arraySlot arrayIndex len lo hi top : Z)
    (rest : list Z) :
  0 <= arrayIndex < len ->
  getArrayLength staticcall contractAddress arraySlot = Ok len ->
  keccak256 [arraySlot] + arrayIndex / 2 <= UINT256_MAX ->
  staticcall contractAddress [keccak256 [arraySlot] + arrayIndex / 2]
  = (true, lo + hi * 2 ^ 104 + top * 2 ^ 208 :: rest) ->
  0 <= lo < 2 ^ 104 -> 0 <= hi < 2 ^ 104 -> 0 <= top ->
  retrieveArrayElement104 keccak256 staticcall
    contractAddress arraySlot arrayIndex
  = Ok (if Z.even arrayIndex then lo else hi).
Proof.
  intros Hidx Hlen Hfit Hcall Hlo Hhi Htop.
  unfold retrieveArrayElement104. rewrite Hlen. cbn [bind].
  unfold require.
  destruct (Z.ltb_spec arrayIndex len) as [_ | Hbad]; [| lia]. cbn [bind].
  change (256 / 104) with 2.
  rewrite add_in_range by exact Hfit. cbn [bind].
  unfold read_word. rewrite Hcall. cbn [negb decode_uint bind].
  pose proof UINT256_MAX_over_104 as Hmax.
  pose proof (Z.mod_pos_bound arrayIndex 2 eq_refl) as Hmod.
  rewrite Zmod_even in *.
  destruct (Z.even arrayIndex).
  - unfold mul. cbn [Z.mul]. 
    destruct (Z.leb_spec 0 UINT256_MAX) as [_ | Hbad]; [| lia].
    cbn [bind]. rewrite unpack_low by assumption. reflexivity.
  - unfold mul. change (1 * 104) with 104.
    destruct (Z.leb_spec 104 UINT256_MAX) as [_ | Hbad]; [| lia].
    cbn [bind]. rewrite unpack_high by assumption. reflexivity.
Qed.

(** X17. [L2StructDemo.getArrayLength] reads the slots [s], [s+1], [s+2]
    in one call and takes the second word apart: [b] is its low 160 bits
    and [c] holds exactly when everything above them equals 1, so a word
    with any further bit set reads as [c = false].  A struct slot within
    two of the top of the address space panics before any call. *)
Theorem getStruct_takes_the_second_word_apart
    (contractAddress structSlot w0 low high w2 : Z) (rest : list Z) :
  0 <= structSlot ->
  (UINT256_MAX < structSlot + 2 ->
   getStruct staticcall contractAddress structSlot = Panic 17)
  /\ (structSlot + 2 <= UINT256_MAX ->
      staticcall contractAddress [structSlot; structSlot + 1; structSlot + 2]
      = (true, w0 :: low + high * 2 ^ 160 :: w2 :: rest) ->
      0 <= low < 2 ^ 160 -> 0 <= high ->
      getStruct staticcall contractAddress structSlot
      = Ok {| a := w0; b := low; c := (high =? 1); d := w2 |}).
Proof.
  intros Hs. split.
  - intros Hover. unfold getStruct.
    destruct (Z.le_gt_cases (structSlot + 1) UINT256_MAX) as [H1 | H1].
    + rewrite (add_in_range structSlot 1) by exact H1. cbn [bind].
      rewrite add_out_of_range by exact Hover. reflexivity.
    + rewrite add_out_of_range by lia. reflexivity.
  - intros Hfit Hcall Hlow Hhigh. unfold getStruct.
    rewrite (add_in_range structSlot 1) by lia. cbn [bind].
    rewrite (add_in_range structSlot 2) by exact Hfit. cbn [bind].
    rewrite Hcall. cbn [negb decode_uint3 bind].
    unfold uint160.
    rewrite Z.shiftr_div_pow2 by lia.
    rewrite Z.mod_add by lia. rewrite Z.mod_small by exact Hlow.
    rewrite Z.div_add by lia. rewrite Z.div_small by exact Hlow.
    reflexivity.
Qed.

(** X18. [L2DynamicArrayDemo.retrieveArrayElement] guards the read with
    the stored length: an index at or past it is refused with "Out of
    bounds index" before the element slot is computed, and an index below
    it is read exactly as [L2ArrayDemo.getNum] reads a static array based
    at [keccak256(slot)]; a failed length read is passed on as it is. *)
Theorem retrieveArrayElement_checks_the_length
    (contractAddress arraySlot arrayIndex : Z) :
  (forall len,
      getArrayLength staticcall contractAddress arraySlot = Ok len ->
      (len <= arrayIndex ->
       retrieveArrayElement keccak256 staticcall
         contractAddress arraySlot arrayIndex
       = Revert "Out of bounds index")
      /\ (arrayIndex < len ->
          retrieveArrayElement keccak256 staticcall
            contractAddress arraySlot arrayIndex
          = getNum staticcall contractAddress (keccak256 [arraySlot])
              arrayIndex))
  /\ (forall reason,
         getArrayLength staticcall contractAddress arraySlot = Revert reason ->
         retrieveArrayElement keccak256 staticcall
           contractAddress arraySlot arrayIndex
         = Revert reason)
  /\ (fst (staticcall contractAddress [arraySlot]) = false ->
      retrieveArrayElement keccak256 staticcall
        contractAddress arraySlot arrayIndex
      = Revert "L1SLOAD failed").
Proof.
  unfold retrieveArrayElement. split; [| split].
  - intros len Hlen. rewrite Hlen. cbn [bind]. unfold require. split.
    + intros Hout.
      destruct (Z.ltb_spec arrayIndex len) as [Hbad | _]; [lia |].
      reflexivity.
    + intros Hin.
      destruct (Z.ltb_spec arrayIndex len) as [_ | Hbad]; [| lia].
      reflexivity.
  - intros reason Hlen. rewrite Hlen. reflexivity.
  - intros Hfail. unfold getArrayLength, read_word.
    destruct (staticcall contractAddress [arraySlot]) as [success rv].
    cbn [fst] in Hfail. subst success. reflexivity.
Qed.

End Readers.

(** *** The statements on the toy storage *)

(** The fourth of the five packed values, the high half of the second
    word. *)
Lemma retrieveArrayElement104_unpacks_witness :
  retrieveArrayElement104 toy_hash toy_staticcall 4660 0 3
  = Ok (if Z.even 3 then 30 else 40)%Z.
Proof.
  apply (retrieveArrayElement104_unpacks toy_hash toy_staticcall
           4660 0 3 5 30 40 0 [])%Z.
  - lia.
  - reflexivity.
  - discriminate.
  - reflexivity.
  - lia.
  - lia.
  - lia.
Defined.

Lemma getStruct_takes_the_second_word_apart_witness :
  getStruct toy_staticcall 4660 7
  = Ok {| a := 10; b := 3735928559; c := (1 =? 1)%Z; d := 20 |}.
Proof.
  refine (proj2 (getStruct_takes_the_second_word_apart toy_staticcall
                   4660 7 10 3735928559 1 20 [] _) _ _ _ _)%Z.
  - lia.
  - discriminate.
  - reflexivity.
  - lia.
  - lia.
Defined.

End L1SloadFacts.
